(** * Ray-tracing core of web-raytracer: a shallow embedding and its properties

    The development follows [js/math.js] (vector kernel), [js/raytracer.js]
    (rays, materials, geometry, lighting, refraction, Fresnel reflectance and
    the recursive tracer) and [js/camera.js] (camera basis maintenance).

    Number model.  JavaScript numbers are rendered as mathematical reals
    ([R]).  [Math.sqrt], [Math.abs], [Math.max], [Math.min], [Math.cos],
    [Math.sin] and [Math.PI] are the corresponding functions of the real
    library.  Values that IEEE arithmetic would turn into NaN or an infinity
    (a division by zero, a square root of a negative number) have no
    counterpart here; results that depend on them are stated with the
    hypotheses that rule them out.  An object that may be [null] is an
    [option]. *)

From Stdlib Require Import Reals Lra Lia ZArith List Bool Psatz Permutation.
Import ListNotations.

Local Open Scope R_scope.

(** ** Vector kernel ([js/math.js]) *)

Record Vector3 : Type := mkVector3 { vx : R; vy : R; vz : R }.

Definition dot (v1 v2 : Vector3) : R :=
  vx v1 * vx v2 + vy v1 * vy v2 + vz v1 * vz v2.

Definition cross (v1 v2 : Vector3) : Vector3 :=
  mkVector3 (vy v1 * vz v2 - vz v1 * vy v2)
            (vz v1 * vx v2 - vx v1 * vz v2)
            (vx v1 * vy v2 - vy v1 * vx v2).

Definition length (v : Vector3) : R := sqrt (dot v v).

Definition normalize (v : Vector3) : Vector3 :=
  let len := length v in
  if Req_dec_T len 0 then mkVector3 0 0 0
  else mkVector3 (vx v / len) (vy v / len) (vz v / len).

Definition add (v1 v2 : Vector3) : Vector3 :=
  mkVector3 (vx v1 + vx v2) (vy v1 + vy v2) (vz v1 + vz v2).

Definition subtract (v1 v2 : Vector3) : Vector3 :=
  mkVector3 (vx v1 - vx v2) (vy v1 - vy v2) (vz v1 - vz v2).

Definition scale (v : Vector3) (s : R) : Vector3 :=
  mkVector3 (vx v * s) (vy v * s) (vz v * s).

(** ** Rays, colours, materials, intersections ([js/raytracer.js]) *)

Record Ray : Type := mkRay { ray_origin : Vector3; ray_direction : Vector3 }.

Definition ray_at (ray : Ray) (t : R) : Vector3 :=
  add (ray_origin ray) (scale (ray_direction ray) t).

Record Color : Type := mkColor { r : R; g : R; b : R }.

(** The optional texture is only consulted by [getColorAt], which none of
    the functions below calls; it is left out of the record. *)
Record Material : Type := mkMaterial {
  mat_color : Color;
  mat_diffuse : R;
  mat_specular : R;
  mat_shininess : R;
  mat_ambient : R;
  mat_reflection : R;
  mat_transparency : R;
  mat_refractiveIndex : R
}.

(** [new Material(color, {})]: every option at its default. *)
Definition Material_default (color : Color) : Material :=
  mkMaterial color 0.7 0.3 32 0.1 0 0 1.5.

Record Intersection : Type := mkIntersection {
  isect_point : Vector3;
  isect_distance : R;
  isect_normal : Vector3;
  isect_material : Material
}.

(** ** Geometry *)

Record Sphere : Type := mkSphere {
  sphere_center : Vector3;
  sphere_radius : R;
  sphere_material : Material
}.

Record Plane : Type := mkPlane {
  plane_point : Vector3;
  plane_normal : Vector3;
  plane_material : Material
}.

(** The [Plane] constructor stores the normalized normal. *)
Definition Plane_new (point normal : Vector3) (material : Material) : Plane :=
  mkPlane point (normalize normal) material.

Module SphereOps.

(** The quantities [Sphere.intersect] computes before it branches. *)
Definition oc (s : Sphere) (ray : Ray) : Vector3 :=
  subtract (ray_origin ray) (sphere_center s).
Definition qa (ray : Ray) : R := dot (ray_direction ray) (ray_direction ray).
Definition qb (s : Sphere) (ray : Ray) : R :=
  2.0 * dot (oc s ray) (ray_direction ray).
Definition qc (s : Sphere) (ray : Ray) : R :=
  dot (oc s ray) (oc s ray) - sphere_radius s * sphere_radius s.
Definition discriminant (s : Sphere) (ray : Ray) : R :=
  qb s ray * qb s ray - 4 * qa ray * qc s ray.
Definition root1 (s : Sphere) (ray : Ray) : R :=
  (- qb s ray - sqrt (discriminant s ray)) / (2.0 * qa ray).
Definition root2 (s : Sphere) (ray : Ray) : R :=
  (- qb s ray + sqrt (discriminant s ray)) / (2.0 * qa ray).

(** The tail of [Sphere.intersect] once [t] is fixed. *)
Definition hit (s : Sphere) (ray : Ray) (t : R) : Intersection :=
  let point := ray_at ray t in
  let normal := normalize (subtract point (sphere_center s)) in
  mkIntersection point t normal (sphere_material s).

(** For a ray whose direction is the zero vector the source divides 0 by
    0: both tests on [t] are then false and it returns an [Intersection]
    whose distance is NaN, which [computeRayIntersection] passes over
    (NaN is below nothing).  No [Intersection] over the reals stands for
    that object; the function below answers [None] there, as its caller
    treats it.  [Sphere_returned_distance] further down keeps the
    division as the source has it, and statements about what
    [Sphere.intersect] itself returns carry the hypothesis that the
    direction is not the zero vector. *)
Definition intersect (s : Sphere) (ray : Ray) : option Intersection :=
  if Rlt_dec (discriminant s ray) 0 then None
  else
    let t := root1 s ray in
    if Rlt_dec t 0.001 then
      let t := root2 s ray in
      if Rlt_dec t 0.001 then None
      else Some (hit s ray t)
    else Some (hit s ray t).

End SphereOps.

Module PlaneOps.

Definition denom (p : Plane) (ray : Ray) : R :=
  dot (ray_direction ray) (plane_normal p).

Definition param (p : Plane) (ray : Ray) : R :=
  dot (subtract (plane_point p) (ray_origin ray)) (plane_normal p)
  / denom p ray.

Definition intersect (p : Plane) (ray : Ray) : option Intersection :=
  let denom := denom p ray in
  if Rlt_dec (Rabs denom) 0.0001 then None
  else if Rlt_dec 0 denom then None
  else
    let t := param p ray in
    if Rlt_dec t 0.001 then None
    else Some (mkIntersection (ray_at ray t) t (plane_normal p)
                              (plane_material p)).

End PlaneOps.

(** [Sphere] and [Plane] extend [Geometry]; the method call
    [object.intersect(ray)] dispatches on the class. *)
Inductive Geometry : Type :=
| GSphere (s : Sphere)
| GPlane (p : Plane).

Definition intersect (object : Geometry) (ray : Ray) : option Intersection :=
  match object with
  | GSphere s => SphereOps.intersect s ray
  | GPlane p => PlaneOps.intersect p ray
  end.

(** ** Lights and scenes *)

(** The [type] string of a light: ['directional'] or ['point']. *)
Inductive LightType : Type := LDirectional | LPoint.

Record Light : Type := mkLight {
  light_type : LightType;
  light_position : Vector3;
  light_direction : Vector3;
  light_color : Color;
  light_intensity : R
}.

Record Scene : Type := mkScene {
  scene_objects : list Geometry;
  scene_lights : list Light
}.

(** One iteration of the loop of [computeRayIntersection].  The pair
    [nearestIntersection]/[nearestDistance] of the source is one option:
    [nearestDistance] is [Infinity] exactly while [nearestIntersection] is
    [null], and every real distance is below [Infinity]. *)
Definition nearer (ray : Ray) (nearest : option Intersection)
    (object : Geometry) : option Intersection :=
  match intersect object ray with
  | None => nearest
  | Some i =>
      match nearest with
      | None => Some i
      | Some n => if Rlt_dec (isect_distance i) (isect_distance n)
                  then Some i else nearest
      end
  end.

Definition computeRayIntersection (ray : Ray) (scene : Scene)
    : option Intersection :=
  fold_left (nearer ray) (scene_objects scene) None.

(** ** Global settings *)

Record Settings : Type := mkSettings {
  enableShadows : bool;
  maxReflectionDepth : Z;
  samplesPerPixel : Z;
  enableRefraction : bool
}.

(** The initial value of [raytracingSettings]. *)
Definition raytracingSettings : Settings := mkSettings true 3 1 true.

Definition set_enableShadows (v : bool) (st : Settings) : Settings :=
  mkSettings v (maxReflectionDepth st) (samplesPerPixel st)
             (enableRefraction st).

Definition set_maxReflectionDepth (v : Z) (st : Settings) : Settings :=
  mkSettings (enableShadows st) v (samplesPerPixel st) (enableRefraction st).

(** ** Phong lighting *)

(** [Math.pow] on the bases [calculateLighting] passes, which are never
    negative: any base to the power 0 is 1, 0 to a positive power is 0, and
    a positive base follows [exp (y * ln x)].  0 to a negative power is
    [Infinity] in JavaScript, which no real stands for: the value below is
    not the source's there, and a statement about the value of the result
    carries the hypothesis [0 <= shininess] (see [material_regular]). *)
Definition Math_pow (x y : R) : R :=
  if Req_dec_T y 0 then 1
  else if Rle_dec x 0 then 0
  else Rpower x y.

Definition clamp01 (v : R) : R := Rmin 1 (Rmax 0 v).

Definition clampColor (c : Color) : Color :=
  mkColor (clamp01 (r c)) (clamp01 (g c)) (clamp01 (b c)).

(** [lightDir] as the first branch of the loop body sets it. *)
Definition lightDirAt (light : Light) (pt : Vector3) : Vector3 :=
  match light_type light with
  | LDirectional => scale (light_direction light) (-1)
  | LPoint => normalize (subtract (light_position light) pt)
  end.

(** [lightDistance]; [None] stands for its initial value [Infinity], which
    a directional light leaves in place. *)
Definition lightDistanceAt (light : Light) (pt : Vector3) : option R :=
  match light_type light with
  | LDirectional => None
  | LPoint => Some (length (subtract (light_position light) pt))
  end.

Definition inShadow (st : Settings) (light : Light) (pt : Vector3)
    (scene : Scene) : bool :=
  if enableShadows st then
    let shadowRay := mkRay pt (lightDirAt light pt) in
    match computeRayIntersection shadowRay scene with
    | None => false
    | Some shadowIntersection =>
        match lightDistanceAt light pt with
        | None => true
        | Some lightDistance =>
            if Rlt_dec (isect_distance shadowIntersection) lightDistance
            then true else false
        end
    end
  else false.

Definition lambertianAt (normal lightDir : Vector3) : R :=
  Rmax (dot normal lightDir) 0.

Definition specularAt (material : Material) (normal lightDir viewDir : Vector3)
    : R :=
  if Rlt_dec 0 (lambertianAt normal lightDir) then
    let reflectDir :=
      subtract (scale normal (2 * dot normal lightDir)) lightDir in
    Math_pow (Rmax (dot reflectDir viewDir) 0) (mat_shininess material)
  else 0.

(** [intensity] after the inverse-square falloff; for a point light
    [lightDistance] is [length lightVector]. *)
Definition intensityAt (light : Light) (pt : Vector3) : R :=
  match light_type light with
  | LPoint =>
      let lightDistance := length (subtract (light_position light) pt) in
      light_intensity light / (1 + 0.01 * lightDistance * lightDistance)
  | LDirectional => light_intensity light
  end.

(** The two [result.c += ...] groups of one loop iteration. *)
Definition addLight (isect : Intersection) (ray : Ray) (result : Color)
    (light : Light) : Color :=
  let pt := isect_point isect in
  let normal := isect_normal isect in
  let material := isect_material isect in
  let viewDir := scale (ray_direction ray) (-1) in
  let lightDir := lightDirAt light pt in
  let lambertian := lambertianAt normal lightDir in
  let specular := specularAt material normal lightDir viewDir in
  let intensity := intensityAt light pt in
  let specularIntensity := mat_specular material * specular * intensity in
  mkColor
    (r result
     + r (mat_color material) * mat_diffuse material * lambertian
       * r (light_color light) * intensity
     + r (light_color light) * specularIntensity)
    (g result
     + g (mat_color material) * mat_diffuse material * lambertian
       * g (light_color light) * intensity
     + g (light_color light) * specularIntensity)
    (b result
     + b (mat_color material) * mat_diffuse material * lambertian
       * b (light_color light) * intensity
     + b (light_color light) * specularIntensity).

(** One iteration of [for (const light of scene.lights)]. *)
Definition lightStep (st : Settings) (isect : Intersection) (ray : Ray)
    (scene : Scene) (result : Color) (light : Light) : Color :=
  if inShadow st light (isect_point isect) scene then result
  else addLight isect ray result light.

Definition ambientColor (material : Material) : Color :=
  mkColor (r (mat_color material) * mat_ambient material)
          (g (mat_color material) * mat_ambient material)
          (b (mat_color material) * mat_ambient material).

Definition calculateLighting (st : Settings) (isect : Intersection)
    (ray : Ray) (scene : Scene) : Color :=
  clampColor
    (fold_left (lightStep st isect ray scene) (scene_lights scene)
               (ambientColor (isect_material isect))).

(** ** Reflection, refraction, Fresnel reflectance *)

Definition calculateReflection (incident normal : Vector3) : Vector3 :=
  let dot_product := dot incident normal in
  subtract incident (scale normal (2 * dot_product)).

Module Refraction.

(** The state after the entering/exiting branch: [cosi], [etai], [etat]
    and [n]. *)
Record Side : Type := mkSide { cosi : R; etai : R; etat : R; n : Vector3 }.

Definition side (incident normal : Vector3) (refrIndex : R) : Side :=
  let cosi := dot incident normal in
  if Rlt_dec cosi 0
  then mkSide (- cosi) 1 refrIndex normal
  else mkSide cosi refrIndex 1 (scale normal (-1)).

Definition eta (s : Side) : R := etai s / etat s.

Definition discriminant (s : Side) : R :=
  1 - eta s * eta s * (1 - cosi s * cosi s).

End Refraction.

Definition calculateRefraction (incident normal : Vector3) (refrIndex : R)
    : option Vector3 :=
  let s := Refraction.side incident normal refrIndex in
  let eta := Refraction.eta s in
  let discriminant := Refraction.discriminant s in
  if Rle_dec discriminant 0 then None
  else
    let refractedRay :=
      add (scale incident eta)
          (scale (Refraction.n s)
                 (eta * Refraction.cosi s - sqrt discriminant)) in
    Some (normalize refractedRay).

Module Fresnel.

(** [etai] and [etat] after the swap of [calculateFresnelReflection]. *)
Definition etai (cosi refrIndex : R) : R :=
  if Rlt_dec 0 cosi then refrIndex else 1.
Definition etat (cosi refrIndex : R) : R :=
  if Rlt_dec 0 cosi then 1 else refrIndex.

Definition sint (cosi refrIndex : R) : R :=
  etai cosi refrIndex / etat cosi refrIndex
  * sqrt (Rmax 0 (1 - cosi * cosi)).

End Fresnel.

Definition calculateFresnelReflection (incident normal : Vector3)
    (refrIndex : R) : R :=
  let cosi := dot incident normal in
  let etai := Fresnel.etai cosi refrIndex in
  let etat := Fresnel.etat cosi refrIndex in
  let sint := Fresnel.sint cosi refrIndex in
  if Rle_dec 1 sint then 1
  else
    let cost := sqrt (Rmax 0 (1 - sint * sint)) in
    let cosi := Rabs cosi in
    let Rs := ((etat * cosi) - (etai * cost)) / ((etat * cosi) + (etai * cost)) in
    let Rp := ((etai * cosi) - (etat * cost)) / ((etai * cosi) + (etat * cost)) in
    (Rs * Rs + Rp * Rp) / 2.

(** ** The recursive tracer *)

Definition MAX_DEPTH : Z := 5.

(** [color * (1 - k) + other * k], channel by channel. *)
Definition blend (color other : Color) (k : R) : Color :=
  mkColor (r color * (1 - k) + r other * k)
          (g color * (1 - k) + g other * k)
          (b color * (1 - k) + b other * k).

Definition bind {A B : Type} (o : option A) (f : A -> option B) : option B :=
  match o with
  | Some a => f a
  | None => None
  end.

Notation "x <- e ;; k" := (bind e (fun x => k))
  (at level 61, e at next level, right associativity).

(** The body of [traceRay] with its recursive calls routed through [self].
    A call of [self] that yields [None] has not returned, and then neither
    has the body.  The debug counters on [window] do not influence the
    returned colour and are left out. *)
Definition traceRay_body (self : Ray -> Z -> option Color) (st : Settings)
    (ray : Ray) (scene : Scene) (backgroundColor : Color) (depth : Z)
    : option Color :=
  if (depth >? MAX_DEPTH)%Z then Some backgroundColor
  else
    match computeRayIntersection ray scene with
    | None => Some backgroundColor
    | Some intersection =>
        let pt := isect_point intersection in
        let normal := isect_normal intersection in
        let material := isect_material intersection in
        let color := calculateLighting st intersection ray scene in
        color <-
          (if Rlt_dec 0 (mat_reflection material) then
             let reflectDir := calculateReflection (ray_direction ray) normal in
             let reflectOrigin := add pt (scale normal 0.001) in
             let reflectRay := mkRay reflectOrigin reflectDir in
             reflectColor <- self reflectRay (depth + 1)%Z ;;
             Some (blend color reflectColor (mat_reflection material))
           else Some color) ;;
        color <-
          (if Rlt_dec 0 (mat_transparency material) then
             if enableRefraction st then
               let fresnelReflect :=
                 calculateFresnelReflection (ray_direction ray) normal
                   (mat_refractiveIndex material) in
               match calculateRefraction (ray_direction ray) normal
                       (mat_refractiveIndex material) with
               | Some refractDir =>
                   let refractOrigin := subtract pt (scale normal 0.001) in
                   let refractRay := mkRay refractOrigin refractDir in
                   refractColor <- self refractRay (depth + 1)%Z ;;
                   let transparency :=
                     mat_transparency material * (1 - fresnelReflect) in
                   Some (blend color refractColor transparency)
               | None => Some color
               end
             else Some color
           else Some color) ;;
        Some (clampColor color)
    end.

(** [traceRay] with a bound on the nesting of calls; [None] when the bound
    is reached. *)
Fixpoint traceRay_fuel (fuel : nat) (st : Settings) (scene : Scene)
    (backgroundColor : Color) (ray : Ray) (depth : Z) : option Color :=
  match fuel with
  | O => None
  | S fuel' =>
      traceRay_body (traceRay_fuel fuel' st scene backgroundColor)
                    st ray scene backgroundColor depth
  end.

(** Nesting that a call at [depth] can reach: one call above [MAX_DEPTH],
    and one more for each level up to it. *)
Definition traceRay_budget (depth : Z) : nat :=
  S (Z.to_nat (MAX_DEPTH + 1 - depth)).

Definition traceRay (st : Settings) (ray : Ray) (scene : Scene)
    (backgroundColor : Color) (depth : Z) : Color :=
  match traceRay_fuel (traceRay_budget depth) st scene backgroundColor
                      ray depth with
  | Some color => color
  | None => backgroundColor
  end.

(** ** Camera ([js/camera.js]) *)

Record Camera : Type := mkCamera {
  cam_position : Vector3;
  cam_direction : Vector3;
  cam_right : Vector3;
  cam_up : Vector3;
  cam_fov : R;
  cam_aspectRatio : R;
  cam_fovRadians : R
}.

(** [o || d] for an optional object. *)
Definition orVector (o : option Vector3) (d : Vector3) : Vector3 :=
  match o with Some v => v | None => d end.

(** [o || d] for an optional number: 0 is falsy. *)
Definition orNumber (o : option R) (d : R) : R :=
  match o with
  | Some v => if Req_dec_T v 0 then d else v
  | None => d
  end.

Definition Camera_new (position lookAt up : option Vector3)
    (fov aspectRatio : option R) : Camera :=
  let position := orVector position (mkVector3 0 0 0) in
  let lookAt := orVector lookAt (mkVector3 0 0 (-1)) in
  let upGuide := orVector up (mkVector3 0 1 0) in
  let fov := orNumber fov 60 in
  let aspectRatio := orNumber aspectRatio 1.0 in
  let direction := normalize (subtract lookAt position) in
  let right := normalize (cross direction upGuide) in
  let up := normalize (cross right direction) in
  mkCamera position direction right up fov aspectRatio (fov * PI / 180).

Definition moveForward (distance : R) (c : Camera) : Camera :=
  mkCamera (add (cam_position c) (scale (cam_direction c) distance))
           (cam_direction c) (cam_right c) (cam_up c)
           (cam_fov c) (cam_aspectRatio c) (cam_fovRadians c).

Definition moveRight (distance : R) (c : Camera) : Camera :=
  mkCamera (add (cam_position c) (scale (cam_right c) distance))
           (cam_direction c) (cam_right c) (cam_up c)
           (cam_fov c) (cam_aspectRatio c) (cam_fovRadians c).

Definition moveUp (distance : R) (c : Camera) : Camera :=
  mkCamera (add (cam_position c) (scale (cam_up c) distance))
           (cam_direction c) (cam_right c) (cam_up c)
           (cam_fov c) (cam_aspectRatio c) (cam_fovRadians c).

Definition pan (degrees : R) (c : Camera) : Camera :=
  let radians := (- degrees * PI) / 180 in
  let cosTheta := cos radians in
  let sinTheta := sin radians in
  let newDirX :=
    vx (cam_direction c) * cosTheta - vz (cam_direction c) * sinTheta in
  let newDirZ :=
    vx (cam_direction c) * sinTheta + vz (cam_direction c) * cosTheta in
  let direction :=
    normalize (mkVector3 newDirX (vy (cam_direction c)) newDirZ) in
  let right := normalize (cross direction (cam_up c)) in
  let up := normalize (cross right direction) in
  mkCamera (cam_position c) direction right up
           (cam_fov c) (cam_aspectRatio c) (cam_fovRadians c).

Definition tilt (degrees : R) (c : Camera) : Camera :=
  let radians := (degrees * PI) / 180 in
  let cosTheta := cos radians in
  let sinTheta := sin radians in
  let newDirY :=
    vy (cam_direction c) * cosTheta - vz (cam_direction c) * sinTheta in
  let newDirZ :=
    vy (cam_direction c) * sinTheta + vz (cam_direction c) * cosTheta in
  let direction :=
    normalize (mkVector3 (vx (cam_direction c)) newDirY newDirZ) in
  let up := normalize (cross (cam_right c) direction) in
  mkCamera (cam_position c) direction (cam_right c) up
           (cam_fov c) (cam_aspectRatio c) (cam_fovRadians c).

(** A rotation request, and a sequence of them applied in order. *)
Inductive Rotation : Type :=
| Pan (degrees : R)
| Tilt (degrees : R).

Definition rotate (c : Camera) (op : Rotation) : Camera :=
  match op with
  | Pan degrees => pan degrees c
  | Tilt degrees => tilt degrees c
  end.

Definition rotations (ops : list Rotation) (c : Camera) : Camera :=
  fold_left rotate ops c.

(** [right], [up], [direction] are pairwise orthogonal unit vectors. *)
Definition orthonormal (c : Camera) : Prop :=
  dot (cam_right c) (cam_right c) = 1 /\
  dot (cam_up c) (cam_up c) = 1 /\
  dot (cam_direction c) (cam_direction c) = 1 /\
  dot (cam_right c) (cam_up c) = 0 /\
  dot (cam_right c) (cam_direction c) = 0 /\
  dot (cam_up c) (cam_direction c) = 0.

(** ** Predicates and reference formulas used by the statements *)

Definition in01 (c : Color) : Prop :=
  0 <= r c <= 1 /\ 0 <= g c <= 1 /\ 0 <= b c <= 1.

(** Channel-wise order on colours. *)
Definition color_le (c1 c2 : Color) : Prop :=
  r c1 <= r c2 /\ g c1 <= g c2 /\ b c1 <= b c2.

(** The scenario scene: one sphere centred at (0,0,5) with radius 1, and
    the ray from the origin along +z. *)
Definition scenario_sphere (m : Material) : Sphere :=
  mkSphere (mkVector3 0 0 5) 1 m.
Definition scenario_scene (m : Material) : Scene :=
  mkScene [GSphere (scenario_sphere m)] [].
Definition scenario_ray : Ray := mkRay (mkVector3 0 0 0) (mkVector3 0 0 1).

(** The floor plane {point (0,-1,0), normal (0,1,0)} and the ray that
    falls on it from (0,5,0). *)
Definition floor_plane (m : Material) : Plane :=
  Plane_new (mkVector3 0 (-1) 0) (mkVector3 0 1 0) m.
Definition falling_ray : Ray := mkRay (mkVector3 0 5 0) (mkVector3 0 (-1) 0).

(** A unit direction that meets the floor plane at a grazing angle:
    its component along the normal is -4000/4000001, between 0.0001 and
    0.001 in absolute value. *)
Definition grazing_ray : Ray :=
  mkRay (mkVector3 0 5 0)
        (mkVector3 (3999999 / 4000001) (- 4000 / 4000001) 0).

(** Colour arithmetic for the reference formulas. *)
Definition cadd (c1 c2 : Color) : Color :=
  mkColor (r c1 + r c2) (g c1 + g c2) (b c1 + b c2).

Definition black : Color := mkColor 0 0 0.

Definition sumColors (cs : list Color) : Color := fold_right cadd black cs.

(** The Phong sum in the words of the specification, to be compared with
    [calculateLighting]. *)
Module PhongSpec.

(** [intensity / (1 + 0.01 lightDistance^2)] for a point light, the
    plain intensity for a directional one. *)
Definition attenuatedIntensity (light : Light) (pt : Vector3) : R :=
  match light_type light with
  | LPoint =>
      light_intensity light
      / (1 + 0.01 * Rsqr (length (subtract (light_position light) pt)))
  | LDirectional => light_intensity light
  end.

(** [material.color * material.diffuse * max(0, dot(normal, lightDir))
    * light.color * attenuatedIntensity]. *)
Definition diffuseTerm (isect : Intersection) (light : Light) : Color :=
  let m := isect_material isect in
  let lightDir := lightDirAt light (isect_point isect) in
  let k := mat_diffuse m * Rmax 0 (dot (isect_normal isect) lightDir) in
  let i := attenuatedIntensity light (isect_point isect) in
  mkColor (r (mat_color m) * k * r (light_color light) * i)
          (g (mat_color m) * k * g (light_color light) * i)
          (b (mat_color m) * k * b (light_color light) * i).

(** [pow(max(0, dot(reflect(lightDir, normal), viewDir)), shininess)
    * material.specular * light.color * attenuatedIntensity], for a
    given reading of [reflect]. *)
Definition specularTerm (reflect : Vector3 -> Vector3 -> Vector3)
    (isect : Intersection) (ray : Ray) (light : Light) : Color :=
  let m := isect_material isect in
  let lightDir := lightDirAt light (isect_point isect) in
  let viewDir := scale (ray_direction ray) (-1) in
  let k :=
    Math_pow (Rmax 0 (dot (reflect lightDir (isect_normal isect)) viewDir))
             (mat_shininess m)
    * mat_specular m in
  let i := attenuatedIntensity light (isect_point isect) in
  mkColor (k * r (light_color light) * i)
          (k * g (light_color light) * i)
          (k * b (light_color light) * i).

(** The mirror image of the light direction about the normal,
    [2 dot(n, l) n - l]. *)
Definition mirror (lightDir normal : Vector3) : Vector3 :=
  subtract (scale normal (2 * dot normal lightDir)) lightDir.

(** The specular term, present only on the lit side of the surface. *)
Definition litSpecularTerm (isect : Intersection) (ray : Ray)
    (light : Light) : Color :=
  if Rlt_dec 0 (dot (isect_normal isect)
                    (lightDirAt light (isect_point isect)))
  then specularTerm mirror isect ray light
  else black.

Definition unshadowed (st : Settings) (isect : Intersection)
    (scene : Scene) : list Light :=
  filter (fun light => negb (inShadow st light (isect_point isect) scene))
         (scene_lights scene).

(** Ambient term plus, for each light not in shadow, the diffuse and the
    specular term; clamped. *)
Definition claimed (reflect : Vector3 -> Vector3 -> Vector3)
    (st : Settings) (isect : Intersection) (ray : Ray) (scene : Scene)
    : Color :=
  clampColor
    (cadd (ambientColor (isect_material isect))
          (sumColors
             (map (fun light =>
                     cadd (diffuseTerm isect light)
                          (specularTerm reflect isect ray light))
                  (unshadowed st isect scene)))).

(** The same with the specular term restricted to the lit side. *)
Definition amended (st : Settings) (isect : Intersection) (ray : Ray)
    (scene : Scene) : Color :=
  clampColor
    (cadd (ambientColor (isect_material isect))
          (sumColors
             (map (fun light =>
                     cadd (diffuseTerm isect light)
                          (litSpecularTerm isect ray light))
                  (unshadowed st isect scene)))).

End PhongSpec.

(** A surface seen and lit from behind: the normal, the viewing ray and a
    directional light all point along +z.  The material has shininess 0. *)
Definition backlit_material : Material :=
  mkMaterial (mkColor 0.5 0.5 0.5) 0.7 0.3 0 0.1 0 0 1.5.
Definition backlit_hit : Intersection :=
  mkIntersection (mkVector3 0 0 0) 1 (mkVector3 0 0 1) backlit_material.
Definition backlit_ray : Ray := mkRay (mkVector3 0 0 (-1)) (mkVector3 0 0 1).
Definition backlit_scene : Scene :=
  mkScene []
    [mkLight LDirectional (mkVector3 0 0 0) (mkVector3 0 0 1)
             (mkColor 1 1 1) 1.0].

(** The material coefficients that [calculateLighting] multiplies into a
    light's contribution (the colour channels, the diffuse and the specular
    coefficient) are non-negative. *)
Definition material_nonneg (m : Material) : Prop :=
  0 <= r (mat_color m) /\ 0 <= g (mat_color m) /\ 0 <= b (mat_color m) /\
  0 <= mat_diffuse m /\ 0 <= mat_specular m.

Definition light_nonneg (light : Light) : Prop :=
  0 <= r (light_color light) /\ 0 <= g (light_color light) /\
  0 <= b (light_color light) /\ 0 <= light_intensity light.

(** A camera rolled about its view axis: what the constructor builds when
    looking down -z with the up guide (-4/5, 3/5, 0). *)
Definition rolled_camera : Camera :=
  Camera_new None None (Some (mkVector3 (-4/5) (3/5) 0)) None None.

(** [new Camera()]: at the origin, looking down -z, y up. *)
Definition default_camera : Camera := Camera_new None None None None None.

(** ** Scene construction, pixel entry points and the frame buffer *)

(** [new Scene()], [Scene.addObject] and [Scene.addLight]: the arrays
    start empty and grow by [push]. *)
Definition Scene_new : Scene := mkScene [] [].

Definition Scene_addObject (object : Geometry) (scene : Scene) : Scene :=
  mkScene (scene_objects scene ++ [object]) (scene_lights scene).

Definition Scene_addLight (light : Light) (scene : Scene) : Scene :=
  mkScene (scene_objects scene) (scene_lights scene ++ [light]).

(** The ray [raytracePixel] builds: from the origin through the pixel on
    the plane z = 1. *)
Definition primaryRay (x y width height : R) : Ray :=
  let ndcX := (x / width) * 2 - 1 in
  let ndcY := 1 - (y / height) * 2 in
  let origin := mkVector3 0 0 0 in
  let direction := normalize (mkVector3 ndcX ndcY 1) in
  mkRay origin direction.

Definition raytracePixel (st : Settings) (x y width height : R)
    (scene : Scene) (backgroundColor : Color) : Color :=
  traceRay st (primaryRay x y width height) scene backgroundColor 0.

(** [Camera.generateRay]; [Math.tan] is [tan]. *)
Definition generateRay (c : Camera) (x y width height : R) : Ray :=
  let ndcX := (x / width) * 2 - 1 in
  let ndcY := 1 - (y / height) * 2 in
  let halfHeight := tan (cam_fovRadians c / 2) in
  let halfWidth := halfHeight * cam_aspectRatio c in
  let dirX := ndcX * halfWidth in
  let dirY := ndcY * halfHeight in
  let rayDirX :=
    vx (cam_right c) * dirX + vx (cam_up c) * dirY + vx (cam_direction c) in
  let rayDirY :=
    vy (cam_right c) * dirX + vy (cam_up c) * dirY + vy (cam_direction c) in
  let rayDirZ :=
    vz (cam_right c) * dirX + vz (cam_up c) * dirY + vz (cam_direction c) in
  let rayDirection := normalize (mkVector3 rayDirX rayDirY rayDirZ) in
  mkRay (cam_position c) rayDirection.

(** Element assignment on a [Uint8ClampedArray]: an integer is clamped to
    0..255, and an index outside the array is ignored. *)
Definition Uint8Clamp (n : Z) : Z := Z.max 0 (Z.min 255 n).

Fixpoint store (img : list Z) (index : nat) (v : Z) : list Z :=
  match img, index with
  | [], _ => []
  | _ :: rest, O => Uint8Clamp v :: rest
  | a :: rest, S i => a :: store rest i v
  end.

(** The four assignments that end the inner loop of [renderRaytrace];
    [Math.floor] is [Zfloor]. *)
Definition writePixel (imageData : list Z) (index : nat) (color : Color)
    : list Z :=
  let imageData := store imageData (index + 0) (Zfloor (r color * 255)) in
  let imageData := store imageData (index + 1) (Zfloor (g color * 255)) in
  let imageData := store imageData (index + 2) (Zfloor (b color * 255)) in
  store imageData (index + 3) 255%Z.

(** The colour [renderRaytrace] computes for pixel (x, y). *)
Definition pixelColor (st : Settings) (camera : Camera) (scene : Scene)
    (width height x y : nat) : Color :=
  let backgroundColor := mkColor 0.1 0.1 0.2 in
  let ray := generateRay camera (INR x) (INR y) (INR width) (INR height) in
  traceRay st ray scene backgroundColor 0.

(** The image buffer [renderRaytrace] fills before it hands it to the
    device: [None] when it gives up on a scene without objects, otherwise
    the array after the two nested loops.  Logging, the hit statistics
    and the transfer to the canvas are left out. *)
Definition renderRaytrace_image (st : Settings) (camera : Camera)
    (scene : Scene) (width height : nat) : option (list Z) :=
  match scene_objects scene with
  | [] => None
  | _ :: _ =>
      let imageData := repeat 0%Z (width * height * 4) in
      Some
        (fold_left
           (fun imageData y =>
              fold_left
                (fun imageData x =>
                   let color := pixelColor st camera scene width height x y in
                   let index := ((y * width + x) * 4)%nat in
                   writePixel imageData index color)
                (seq 0 width) imageData)
           (seq 0 height) imageData)
  end.

(** The bytes of one pixel in the buffer. *)
Definition pixelBytes (color : Color) : list Z :=
  [Zfloor (r color * 255); Zfloor (g color * 255); Zfloor (b color * 255);
   255%Z].

(** The camera of the renderer: ten units back on the z axis, looking
    along +z. *)
Definition renderer_camera : Camera :=
  Camera_new (Some (mkVector3 0 0 (-10))) (Some (mkVector3 0 0 5))
             (Some (mkVector3 0 1 0)) (Some 60) (Some (16 / 9)).

(** The row-major layout of an image whose pixel (x, y) has the entries
    [px x y]. *)
Definition rowOf (w : nat) (px : nat -> nat -> list Z) (y : nat) : list Z :=
  concat (map (fun x => px x y) (seq 0 w)).

Definition imageOf (w h : nat) (px : nat -> nat -> list Z) : list Z :=
  concat (map (rowOf w px) (seq 0 h)).

(** ** Numbers that are not reals *)

(** A JavaScript number that may also be an infinity or NaN. *)
Inductive Num : Type :=
| Finite (x : R)
| PlusInfinity
| MinusInfinity
| NaN.

(** [x / y] for finite [x] and a finite [y] that is positive or +0 (the
    only denominators [Sphere.intersect] forms: [2.0 * dot(d, d)]). *)
Definition Num_div (x y : R) : Num :=
  if Req_dec_T y 0 then
    if Req_dec_T x 0 then NaN
    else if Rlt_dec 0 x then PlusInfinity else MinusInfinity
  else Finite (x / y).

(** [t < bound] for a finite [bound]: false for NaN. *)
Definition Num_lt (t : Num) (bound : R) : bool :=
  match t with
  | Finite x => if Rlt_dec x bound then true else false
  | PlusInfinity => false
  | MinusInfinity => true
  | NaN => false
  end.

(** [bound <= t]: false for NaN as well. *)
Definition Num_ge (t : Num) (bound : R) : bool :=
  match t with
  | Finite x => if Rle_dec bound x then true else false
  | PlusInfinity => true
  | MinusInfinity => false
  | NaN => false
  end.

(** The [distance] of the object [Sphere.intersect] returns ([None] for
    [null]), with the two divisions kept as the source performs them. *)
Definition Sphere_returned_distance (s : Sphere) (ray : Ray) : option Num :=
  let a := SphereOps.qa ray in
  let b' := SphereOps.qb s ray in
  let discriminant := SphereOps.discriminant s ray in
  if Rlt_dec discriminant 0 then None
  else
    let sqrtDiscriminant := sqrt discriminant in
    let t := Num_div (- b' - sqrtDiscriminant) (2.0 * a) in
    if Num_lt t 0.001 then
      let t := Num_div (- b' + sqrtDiscriminant) (2.0 * a) in
      if Num_lt t 0.001 then None
      else Some t
    else Some t.

(** ** Well-formed materials *)




Definition material_color_nonneg (m : Material) : Prop :=
  0 <= r (mat_color m) /\ 0 <= g (mat_color m) /\ 0 <= b (mat_color m).

(** Every coefficient of the material is non-negative. *)
Definition material_coefficients_nonneg (m : Material) : Prop :=
  0 <= mat_diffuse m /\ 0 <= mat_specular m /\ 0 <= mat_shininess m /\
  0 <= mat_ambient m /\ 0 <= mat_reflection m /\ 0 <= mat_transparency m /\
  0 <= mat_refractiveIndex m.

(** ** A point that one light reaches and another does not *)

(** A unit sphere on the z axis. *)
Definition axis_sphere (z : R) (m : Material) : Sphere :=
  mkSphere (mkVector3 0 0 z) 1 m.

(** A directional light that arrives at a low angle, and one from
    straight above. *)
Definition grazing_light : Light :=
  mkLight LDirectional (mkVector3 0 0 0) (mkVector3 (-0.96) 0 (-0.28))
          (mkColor 1 1 1) 1.

Definition overhead_light : Light :=
  mkLight LDirectional (mkVector3 0 0 0) (mkVector3 0 0 (-1))
          (mkColor 1 1 1) 1.

(** The scenario sphere hangs over the origin: it blocks the overhead
    light there and leaves the grazing light free. *)
Definition occluded_scene : Scene :=
  mkScene [GSphere (axis_sphere 5 (Material_default (mkColor 1 1 1)))]
          [grazing_light; overhead_light].

(** A surface point at the origin, facing up, of the given colour, with
    diffuse 1, specular 0.5, shininess 0 and ambient 0.1. *)
Definition occluded_hit (color : Color) : Intersection :=
  mkIntersection (mkVector3 0 0 0) 1 (mkVector3 0 0 1)
                 (mkMaterial color 1 0.5 0 0.1 0 0 1.5).

Definition occluded_ray : Ray := mkRay (mkVector3 0 0 1) (mkVector3 0 0 (-1)).

(** Three unit spheres in a row along the ray of the scenario; the
    nearest one is the second in the list. *)
Definition row_scene (m : Material) : Scene :=
  mkScene [GSphere (axis_sphere 9 m); GSphere (axis_sphere 5 m);
           GSphere (axis_sphere 13 m)] [].

(** ** Vector kernel facts *)

Lemma dot_self_nonneg (v : Vector3) : 0 <= dot v v.
Proof. unfold dot. nra. Qed.

Lemma length_unit (v : Vector3) : dot v v = 1 -> length v = 1.
Proof. intros H. unfold length. rewrite H. apply sqrt_1. Qed.

Lemma normalize_unit (v : Vector3) : dot v v = 1 -> normalize v = v.
Proof.
  intros H. unfold normalize. rewrite (length_unit v H).
  destruct (Req_dec_T 1 0) as [E | _]; [lra |].
  destruct v as [a b' c]; simpl. f_equal; field.
Qed.

Lemma sqrt_4 : sqrt 4 = 2.
Proof. replace 4 with (2 * 2) by lra. apply sqrt_square. lra. Qed.

(** ** Sphere intersection *)

Section SphereFacts.

Import SphereOps.
Variables (s : Sphere) (ray : Ray).

Lemma qa_nonneg : 0 <= qa ray.
Proof. apply dot_self_nonneg. Qed.

Lemma intersect_cases :
  (discriminant s ray < 0 /\ intersect s ray = None) \/
  (0 <= discriminant s ray /\ 0.001 <= root1 s ray /\
   intersect s ray = Some (hit s ray (root1 s ray))) \/
  (0 <= discriminant s ray /\ root1 s ray < 0.001 /\ 0.001 <= root2 s ray /\
   intersect s ray = Some (hit s ray (root2 s ray))) \/
  (0 <= discriminant s ray /\ root1 s ray < 0.001 /\ root2 s ray < 0.001 /\
   intersect s ray = None).
Proof.
  unfold intersect.
  destruct (Rlt_dec (discriminant s ray) 0) as [Hd | Hd].
  - left. split; [exact Hd | reflexivity].
  - right. apply Rnot_lt_le in Hd.
    destruct (Rlt_dec (root1 s ray) 0.001) as [H1 | H1].
    + right.
      destruct (Rlt_dec (root2 s ray) 0.001) as [H2 | H2].
      * right. repeat split; assumption.
      * left. apply Rnot_lt_le in H2. repeat split; assumption.
    + left. apply Rnot_lt_le in H1. repeat split; assumption.
Qed.

(** Both candidates solve [a t^2 + b t + c = 0] when the direction is not
    the zero vector, and [root1] is the smaller one. *)
Lemma roots_solve :
  0 <= discriminant s ray -> qa ray <> 0 ->
  qa ray * (root1 s ray * root1 s ray) + qb s ray * root1 s ray + qc s ray = 0
  /\
  qa ray * (root2 s ray * root2 s ray) + qb s ray * root2 s ray + qc s ray = 0
  /\ root1 s ray <= root2 s ray.
Proof.
  intros Hd Ha.
  pose proof (sqrt_sqrt _ Hd) as Hs.
  pose proof (sqrt_pos (discriminant s ray)) as Hp.
  pose proof qa_nonneg as Hq.
  unfold root1, root2.
  set (sd := sqrt (discriminant s ray)) in *.
  unfold discriminant in Hs.
  set (a := qa ray) in *. set (b' := qb s ray) in *. set (c := qc s ray) in *.
  assert (Hpos : 0 < a) by lra.
  split; [| split].
  - field_simplify_eq; [| lra]. nra.
  - field_simplify_eq; [| lra]. nra.
  - apply Rmult_le_compat_r.
    + left. apply Rinv_0_lt_compat. lra.
    + lra.
Qed.

End SphereFacts.

Lemma scenario_discriminant (m : Material) :
  SphereOps.discriminant (scenario_sphere m) scenario_ray = 4.
Proof.
  unfold SphereOps.discriminant, SphereOps.qb, SphereOps.qa, SphereOps.qc,
    SphereOps.oc, dot. simpl. lra.
Qed.

Lemma scenario_root1 (m : Material) :
  SphereOps.root1 (scenario_sphere m) scenario_ray = 4.
Proof.
  unfold SphereOps.root1. rewrite scenario_discriminant, sqrt_4.
  unfold SphereOps.qb, SphereOps.qa, SphereOps.oc, dot. simpl. lra.
Qed.



(** ** Plane intersection *)

Lemma normalize_up : normalize (mkVector3 0 1 0) = mkVector3 0 1 0.
Proof. apply normalize_unit. unfold dot. simpl. lra. Qed.

Lemma floor_plane_eq (m : Material) :
  floor_plane m = mkPlane (mkVector3 0 (-1) 0) (mkVector3 0 1 0) m.
Proof. unfold floor_plane, Plane_new. rewrite normalize_up. reflexivity. Qed.

Section PlaneFacts.

Import PlaneOps.
Variables (p : Plane) (ray : Ray).

Lemma plane_reject :
  Rabs (denom p ray) < 0.0001 \/ 0 < denom p ray \/ param p ray < 0.001 ->
  intersect p ray = None.
Proof.
  unfold intersect. intros H.
  destruct (Rlt_dec (Rabs (denom p ray)) 0.0001) as [Ha | Ha]; [reflexivity |].
  destruct (Rlt_dec 0 (denom p ray)) as [Hb | Hb]; [reflexivity |].
  destruct (Rlt_dec (param p ray) 0.001) as [Hc | Hc]; [reflexivity |].
  destruct H as [H | [H | H]]; contradiction.
Qed.

Lemma plane_accept :
  0.0001 <= Rabs (denom p ray) -> denom p ray <= 0 ->
  0.001 <= param p ray ->
  intersect p ray
  = Some (mkIntersection (ray_at ray (param p ray)) (param p ray)
                         (plane_normal p) (plane_material p)).
Proof.
  unfold intersect. intros Ha Hb Hc.
  destruct (Rlt_dec (Rabs (denom p ray)) 0.0001); [lra |].
  destruct (Rlt_dec 0 (denom p ray)); [lra |].
  destruct (Rlt_dec (param p ray) 0.001); [lra |].
  reflexivity.
Qed.

End PlaneFacts.

Lemma falling_denom (m : Material) :
  PlaneOps.denom (floor_plane m) falling_ray = -1.
Proof. rewrite floor_plane_eq. unfold PlaneOps.denom, dot. simpl. lra. Qed.

Lemma falling_param (m : Material) :
  PlaneOps.param (floor_plane m) falling_ray = 6.
Proof.
  unfold PlaneOps.param. rewrite falling_denom. rewrite floor_plane_eq.
  unfold dot. simpl. lra.
Qed.

Lemma grazing_denom (m : Material) :
  PlaneOps.denom (floor_plane m) grazing_ray = - 4000 / 4000001.
Proof. rewrite floor_plane_eq. unfold PlaneOps.denom, dot. simpl. lra. Qed.

Lemma grazing_param (m : Material) :
  PlaneOps.param (floor_plane m) grazing_ray = 6 * 4000001 / 4000.
Proof.
  unfold PlaneOps.param. rewrite grazing_denom. rewrite floor_plane_eq.
  unfold dot. simpl. lra.
Qed.

(** C5, as stated, fails: the grazing ray has unit direction and
    [|dot d n|] below 0.001, and the floor plane still reports a hit. *)
Lemma plane_parallel_threshold_counterexample :
  dot (ray_direction grazing_ray) (ray_direction grazing_ray) = 1 /\
  Rabs (PlaneOps.denom (floor_plane (Material_default (mkColor 1 1 1)))
                       grazing_ray) < 0.001 /\
  PlaneOps.intersect (floor_plane (Material_default (mkColor 1 1 1)))
                     grazing_ray <> None.
Proof.
  split; [| split].
  - unfold dot. simpl. lra.
  - rewrite grazing_denom. rewrite Rabs_left; lra.
  - rewrite plane_accept.
    + discriminate.
    + rewrite grazing_denom. rewrite Rabs_left; lra.
    + rewrite grazing_denom. lra.
    + rewrite grazing_param. lra.
Qed.

(** C5, amended.  [Plane.intersect] reports no hit when [|dot d n|] is
    below 0.0001, when [dot d n] is positive, or when
    [t = dot (point - o) n / dot d n] is below 0.001; otherwise it reports
    a hit at distance [t] with the stored normal.  The floor plane is hit
    by the falling ray at distance 6, at height -1. *)
Theorem plane_intersect_policy (p : Plane) (ray : Ray) (m : Material) :
  let dn := PlaneOps.denom p ray in
  let t := PlaneOps.param p ray in
  (Rabs dn < 0.0001 -> PlaneOps.intersect p ray = None) /\
  (0 < dn -> PlaneOps.intersect p ray = None) /\
  (t < 0.001 -> PlaneOps.intersect p ray = None) /\
  (0.0001 <= Rabs dn -> dn <= 0 -> 0.001 <= t ->
   PlaneOps.intersect p ray
   = Some (mkIntersection (ray_at ray t) t (plane_normal p)
                          (plane_material p))) /\
  (exists i, PlaneOps.intersect (floor_plane m) falling_ray = Some i /\
             isect_distance i = 6 /\ vy (isect_point i) = -1 /\
             isect_normal i = mkVector3 0 1 0).
Proof.
  intros dn t. subst dn t.
  split; [| split; [| split; [| split]]].
  - intros H. apply plane_reject. left. exact H.
  - intros H. apply plane_reject. right. left. exact H.
  - intros H. apply plane_reject. right. right. exact H.
  - apply plane_accept.
  - eexists. split.
    + apply plane_accept.
      * rewrite falling_denom. rewrite Rabs_left; lra.
      * rewrite falling_denom. lra.
      * rewrite falling_param. lra.
    + cbn [isect_distance isect_point isect_normal].
      rewrite falling_param.
      split; [reflexivity | split].
      * unfold ray_at, falling_ray. simpl. lra.
      * rewrite floor_plane_eq. reflexivity.
Qed.

Lemma plane_intersect_policy_witness :
  PlaneOps.intersect (floor_plane (Material_default (mkColor 1 1 1)))
                     falling_ray
  = Some (mkIntersection
            (ray_at falling_ray
               (PlaneOps.param (floor_plane (Material_default (mkColor 1 1 1)))
                               falling_ray))
            (PlaneOps.param (floor_plane (Material_default (mkColor 1 1 1)))
                            falling_ray)
            (plane_normal (floor_plane (Material_default (mkColor 1 1 1))))
            (plane_material (floor_plane (Material_default (mkColor 1 1 1))))).
Proof.
  apply (proj1 (proj2 (proj2 (proj2
           (plane_intersect_policy
              (floor_plane (Material_default (mkColor 1 1 1))) falling_ray
              (Material_default (mkColor 1 1 1))))))).
  - rewrite falling_denom. rewrite Rabs_left; lra.
  - rewrite falling_denom. lra.
  - rewrite falling_param. lra.
Defined.

(** ** The self-intersection guard *)

Lemma sphere_distance_guard (s : Sphere) (ray : Ray) (i : Intersection) :
  SphereOps.intersect s ray = Some i -> 0.001 <= isect_distance i.
Proof.
  intros H.
  destruct (intersect_cases s ray)
    as [[_ E] | [[_ [H1 E]] | [[_ [_ [H2 E]]] | [_ [_ [_ E]]]]]];
    rewrite E in H; inversion H; subst; simpl; try assumption.
Qed.

Lemma plane_distance_guard (p : Plane) (ray : Ray) (i : Intersection) :
  PlaneOps.intersect p ray = Some i -> 0.001 <= isect_distance i.
Proof.
  unfold PlaneOps.intersect. intros H.
  destruct (Rlt_dec (Rabs (PlaneOps.denom p ray)) 0.0001); [discriminate |].
  destruct (Rlt_dec 0 (PlaneOps.denom p ray)); [discriminate |].
  destruct (Rlt_dec (PlaneOps.param p ray) 0.001) as [Hc | Hc];
    [discriminate |].
  inversion H; subst; simpl. apply Rnot_lt_le. exact Hc.
Qed.

Lemma intersect_distance_guard (object : Geometry) (ray : Ray)
    (i : Intersection) :
  intersect object ray = Some i -> 0.001 <= isect_distance i.
Proof.
  destruct object; simpl.
  - apply sphere_distance_guard.
  - apply plane_distance_guard.
Qed.

(** The loop of [computeRayIntersection] keeps any property that every
    single-object hit has. *)
Lemma nearest_preserves (P : Intersection -> Prop) (ray : Ray) :
  (forall object i, intersect object ray = Some i -> P i) ->
  forall objects acc i,
    (forall j, acc = Some j -> P j) ->
    fold_left (nearer ray) objects acc = Some i -> P i.
Proof.
  intros Hobj objects.
  induction objects as [| object rest IH]; intros acc i Hacc H; simpl in H.
  - apply Hacc. exact H.
  - apply (IH (nearer ray acc object) i); [| exact H].
    intros j Hj. unfold nearer in Hj.
    destruct (intersect object ray) as [k |] eqn:Ek.
    + destruct acc as [a' |].
      * destruct (Rlt_dec (isect_distance k) (isect_distance a')).
        -- inversion Hj; subst. eapply Hobj; eassumption.
        -- apply Hacc. exact Hj.
      * inversion Hj; subst. eapply Hobj; eassumption.
    + apply Hacc. exact Hj.
Qed.

Lemma computeRayIntersection_guard (ray : Ray) (scene : Scene)
    (i : Intersection) :
  computeRayIntersection ray scene = Some i -> 0.001 <= isect_distance i.
Proof.
  unfold computeRayIntersection. intros H.
  apply (nearest_preserves (fun j => 0.001 <= isect_distance j) ray
           (fun object j => intersect_distance_guard object ray j)
           (scene_objects scene) None i); [discriminate | exact H].
Qed.

(** ** Refraction *)

Section RefractionFacts.

Variables (incident normal : Vector3) (refrIndex : R).

Lemma side_entering :
  dot incident normal < 0 ->
  Refraction.side incident normal refrIndex
  = Refraction.mkSide (- dot incident normal) 1 refrIndex normal.
Proof.
  intros H. unfold Refraction.side.
  destruct (Rlt_dec (dot incident normal) 0); [reflexivity | contradiction].
Qed.

Lemma side_exiting :
  0 <= dot incident normal ->
  Refraction.side incident normal refrIndex
  = Refraction.mkSide (dot incident normal) refrIndex 1 (scale normal (-1)).
Proof.
  intros H. unfold Refraction.side.
  destruct (Rlt_dec (dot incident normal) 0); [lra | reflexivity].
Qed.

Lemma side_cosi_nonneg :
  0 <= Refraction.cosi (Refraction.side incident normal refrIndex).
Proof.
  destruct (Rlt_dec (dot incident normal) 0) as [H | H].
  - rewrite (side_entering H). simpl. lra.
  - apply Rnot_lt_le in H. rewrite (side_exiting H). simpl. lra.
Qed.

End RefractionFacts.

(** C7.  [calculateRefraction] yields no direction exactly when
    [k = 1 - eta^2 (1 - cosi^2) <= 0]; [cosi] and [eta = etai / etat] come
    from the test on the sign of [dot d n] (entering: [cosi] negated to be
    positive, indices 1 and [refrIndex], normal kept; exiting: indices
    swapped, normal negated); for [k > 0] the result is the normalization
    of [d eta + n (eta cosi - sqrt k)]. *)
Theorem refraction_total_internal_reflection
    (incident normal : Vector3) (refrIndex : R) :
  let s := Refraction.side incident normal refrIndex in
  let eta := Refraction.etai s / Refraction.etat s in
  let k := 1 - eta * eta * (1 - Refraction.cosi s * Refraction.cosi s) in
  (dot incident normal < 0 ->
   s = Refraction.mkSide (- dot incident normal) 1 refrIndex normal) /\
  (0 <= dot incident normal ->
   s = Refraction.mkSide (dot incident normal) refrIndex 1
                         (scale normal (-1))) /\
  0 <= Refraction.cosi s /\
  (calculateRefraction incident normal refrIndex = None <-> k <= 0) /\
  (0 < k ->
   calculateRefraction incident normal refrIndex
   = Some (normalize
             (add (scale incident eta)
                  (scale (Refraction.n s)
                         (eta * Refraction.cosi s - sqrt k))))).
Proof.
  intros s eta k. subst s eta k.
  split; [apply side_entering |].
  split; [apply side_exiting |].
  split; [apply side_cosi_nonneg |].
  unfold calculateRefraction, Refraction.discriminant, Refraction.eta.
  set (s := Refraction.side incident normal refrIndex).
  set (k := 1 - _ * _ * _).
  destruct (Rle_dec k 0) as [Hk | Hk].
  - split.
    + split; [intros _; exact Hk | reflexivity].
    + intros H. lra.
  - split.
    + split; [discriminate | intros H; contradiction].
    + intros _. reflexivity.
Qed.

(** Straight down onto a horizontal glass surface. *)
Lemma refraction_total_internal_reflection_witness :
  calculateRefraction (mkVector3 0 (-1) 0) (mkVector3 0 1 0) 1.5
  <> None.
Proof.
  assert (E : dot (mkVector3 0 (-1) 0) (mkVector3 0 1 0) = -1)
    by (unfold dot; simpl; lra).
  assert (L : dot (mkVector3 0 (-1) 0) (mkVector3 0 1 0) < 0) by lra.
  rewrite (proj2 (proj2 (proj2 (proj2
             (refraction_total_internal_reflection
                (mkVector3 0 (-1) 0) (mkVector3 0 1 0) 1.5))))).
  - discriminate.
  - rewrite (side_entering _ _ 1.5 L). simpl. rewrite E. lra.
Defined.

(** ** Fresnel reflectance *)

Lemma Rmax_0_0 : Rmax 0 0 = 0.
Proof. apply Rmax_left. lra. Qed.

Lemma normal_incidence_cosi :
  dot (mkVector3 0 (-1) 0) (mkVector3 0 1 0) = -1.
Proof. unfold dot. simpl. lra. Qed.

Lemma normal_incidence_sint : Fresnel.sint (-1) 1.5 = 0.
Proof.
  unfold Fresnel.sint.
  replace (1 - -1 * -1) with 0 by lra.
  rewrite Rmax_0_0, sqrt_0. lra.
Qed.

Lemma normal_incidence_fresnel :
  calculateFresnelReflection (mkVector3 0 (-1) 0) (mkVector3 0 1 0) 1.5
  = (0.2 * 0.2 + 0.2 * 0.2) / 2.
Proof.
  unfold calculateFresnelReflection.
  rewrite normal_incidence_cosi, normal_incidence_sint.
  destruct (Rle_dec 1 0) as [H | _]; [lra |].
  replace (1 - 0 * 0) with 1 by lra.
  rewrite (Rmax_right 0 1) by lra. rewrite sqrt_1.
  rewrite (Rabs_left (-1)) by lra.
  unfold Fresnel.etai, Fresnel.etat.
  destruct (Rlt_dec 0 (-1)) as [H | _]; [lra |].
  replace (1.5 * - (-1) - 1 * 1) with 0.5 by lra.
  replace (1.5 * - (-1) + 1 * 1) with 2.5 by lra.
  replace (1 * - (-1) - 1.5 * 1) with (-0.5) by lra.
  replace (1 * - (-1) + 1.5 * 1) with 2.5 by lra.
  lra.
Qed.

(** C8.  [calculateFresnelReflection] is 1 whenever
    [sint = (etai / etat) sqrt (max 0 (1 - cosi^2))] reaches 1, the indices
    being swapped when [cosi > 0]; straight down onto a surface of index
    1.5 it is exactly [(0.2^2 + 0.2^2) / 2 = 0.04]. *)
Theorem fresnel_reflectance (incident normal : Vector3) (refrIndex : R) :
  let cosi := dot incident normal in
  let etai := Fresnel.etai cosi refrIndex in
  let etat := Fresnel.etat cosi refrIndex in
  (0 < cosi -> etai = refrIndex /\ etat = 1) /\
  (cosi <= 0 -> etai = 1 /\ etat = refrIndex) /\
  (1 <= etai / etat * sqrt (Rmax 0 (1 - cosi * cosi)) ->
   calculateFresnelReflection incident normal refrIndex = 1) /\
  calculateFresnelReflection (mkVector3 0 (-1) 0) (mkVector3 0 1 0) 1.5
  = (0.2 * 0.2 + 0.2 * 0.2) / 2 /\
  calculateFresnelReflection (mkVector3 0 (-1) 0) (mkVector3 0 1 0) 1.5
  = 0.04.
Proof.
  intros cosi etai etat. subst cosi etai etat.
  unfold Fresnel.etai, Fresnel.etat.
  split; [| split; [| split; [| split]]].
  - intros H. destruct (Rlt_dec 0 (dot incident normal)); [split; reflexivity | contradiction].
  - intros H. destruct (Rlt_dec 0 (dot incident normal)); [lra | split; reflexivity].
  - intros H. unfold calculateFresnelReflection, Fresnel.sint,
      Fresnel.etai, Fresnel.etat.
    destruct (Rle_dec 1 _) as [_ | N]; [reflexivity | contradiction].
  - apply normal_incidence_fresnel.
  - rewrite normal_incidence_fresnel. lra.
Qed.

(** A grazing ray ([cosi = 0], so the indices are not swapped) on a
    material of refractive index 1/2: [sint] is 2. *)
Lemma fresnel_reflectance_witness :
  calculateFresnelReflection (mkVector3 1 0 0) (mkVector3 0 1 0) 0.5 = 1.
Proof.
  assert (E : dot (mkVector3 1 0 0) (mkVector3 0 1 0) = 0)
    by (unfold dot; simpl; lra).
  apply (proj1 (proj2 (proj2
           (fresnel_reflectance (mkVector3 1 0 0) (mkVector3 0 1 0) 0.5)))).
  rewrite E. unfold Fresnel.etai, Fresnel.etat.
  destruct (Rlt_dec 0 0) as [H | _]; [lra |].
  replace (1 - 0 * 0) with 1 by lra.
  rewrite (Rmax_right 0 1) by lra. rewrite sqrt_1. lra.
Defined.

(** ** Phong lighting *)

Lemma clamp01_range (v : R) : 0 <= clamp01 v <= 1.
Proof.
  unfold clamp01, Rmin, Rmax.
  destruct (Rle_dec 0 v); destruct (Rle_dec 1 _); lra.
Qed.

Lemma clamp01_id (v : R) : 0 <= v <= 1 -> clamp01 v = v.
Proof.
  intros H. unfold clamp01, Rmin, Rmax.
  destruct (Rle_dec 0 v); destruct (Rle_dec 1 _); lra.
Qed.

Lemma clamp01_mono (v w : R) : v <= w -> clamp01 v <= clamp01 w.
Proof.
  intros H. unfold clamp01, Rmin, Rmax.
  destruct (Rle_dec 0 v); destruct (Rle_dec 0 w);
    repeat destruct (Rle_dec 1 _); lra.
Qed.

Lemma clampColor_in01 (c : Color) : in01 (clampColor c).
Proof. unfold in01, clampColor; simpl. repeat split; apply clamp01_range. Qed.

Lemma Math_pow_nonneg (x y : R) : 0 <= Math_pow x y.
Proof.
  unfold Math_pow.
  destruct (Req_dec_T y 0); [lra |].
  destruct (Rle_dec x 0); [lra |].
  left. unfold Rpower. apply exp_pos.
Qed.

Lemma color_eq (c1 c2 : Color) :
  r c1 = r c2 -> g c1 = g c2 -> b c1 = b c2 -> c1 = c2.
Proof. destruct c1, c2; simpl; intros; subst; reflexivity. Qed.

Lemma cadd_assoc (c1 c2 c3 : Color) :
  cadd (cadd c1 c2) c3 = cadd c1 (cadd c2 c3).
Proof. apply color_eq; simpl; ring. Qed.

Lemma cadd_black_r (c : Color) : cadd c black = c.
Proof. apply color_eq; simpl; ring. Qed.

Lemma intensityAt_attenuated (light : Light) (pt : Vector3) :
  intensityAt light pt = PhongSpec.attenuatedIntensity light pt.
Proof.
  unfold intensityAt, PhongSpec.attenuatedIntensity, Rsqr.
  destruct (light_type light); [reflexivity |].
  f_equal. ring.
Qed.

Lemma specularAt_lit (m : Material) (normal lightDir viewDir : Vector3) :
  specularAt m normal lightDir viewDir
  = if Rlt_dec 0 (dot normal lightDir)
    then Math_pow (Rmax 0 (dot (PhongSpec.mirror lightDir normal) viewDir))
                  (mat_shininess m)
    else 0.
Proof.
  unfold specularAt, lambertianAt, PhongSpec.mirror.
  rewrite (Rmax_comm 0).
  destruct (Rlt_dec 0 (dot normal lightDir)) as [H | H].
  - rewrite (Rmax_left (dot normal lightDir) 0) by lra.
    destruct (Rlt_dec 0 (dot normal lightDir)); [reflexivity | contradiction].
  - rewrite (Rmax_right (dot normal lightDir) 0) by lra.
    destruct (Rlt_dec 0 0); [lra | reflexivity].
Qed.

Lemma addLight_terms (isect : Intersection) (ray : Ray) (result : Color)
    (light : Light) :
  addLight isect ray result light
  = cadd result (cadd (PhongSpec.diffuseTerm isect light)
                      (PhongSpec.litSpecularTerm isect ray light)).
Proof.
  unfold addLight, PhongSpec.diffuseTerm, PhongSpec.litSpecularTerm,
    PhongSpec.specularTerm.
  rewrite specularAt_lit, intensityAt_attenuated.
  unfold lambertianAt. rewrite (Rmax_comm _ 0).
  destruct (Rlt_dec 0 (dot (isect_normal isect)
                           (lightDirAt light (isect_point isect))));
    apply color_eq; simpl; ring.
Qed.

Lemma lighting_loop (st : Settings) (isect : Intersection) (ray : Ray)
    (scene : Scene) (lights : list Light) (result : Color) :
  fold_left (lightStep st isect ray scene) lights result
  = cadd result
      (sumColors
         (map (fun light =>
                 cadd (PhongSpec.diffuseTerm isect light)
                      (PhongSpec.litSpecularTerm isect ray light))
              (filter (fun light =>
                         negb (inShadow st light (isect_point isect) scene))
                      lights))).
Proof.
  revert result.
  induction lights as [| light rest IH]; intros result; simpl.
  - symmetry. apply cadd_black_r.
  - rewrite IH. unfold lightStep.
    destruct (inShadow st light (isect_point isect) scene); simpl.
    + reflexivity.
    + rewrite addLight_terms. apply cadd_assoc.
Qed.

(** The backlit example evaluated on both sides. *)
Lemma backlit_lighting_r :
  r (calculateLighting raytracingSettings backlit_hit backlit_ray
                       backlit_scene) = 0.05.
Proof.
  unfold calculateLighting. rewrite lighting_loop.
  unfold backlit_scene, inShadow, computeRayIntersection; simpl.
  unfold PhongSpec.litSpecularTerm, lightDirAt, dot; simpl.
  destruct (Rlt_dec 0 _) as [H | _]; [lra |].
  replace (0 * (0 * -1) + 0 * (0 * -1) + 1 * (1 * -1)) with (-1) by lra.
  rewrite (Rmax_left 0 (-1)) by lra.
  unfold PhongSpec.attenuatedIntensity, black; simpl.
  rewrite clamp01_id; lra.
Qed.

Lemma backlit_claimed_r (reflect : Vector3 -> Vector3 -> Vector3) :
  r (PhongSpec.claimed reflect raytracingSettings backlit_hit backlit_ray
                       backlit_scene) = 0.35.
Proof.
  unfold PhongSpec.claimed, PhongSpec.unshadowed.
  unfold backlit_scene, inShadow, computeRayIntersection; simpl.
  unfold Math_pow.
  destruct (Req_dec_T 0 0) as [_ | N]; [| contradiction N; reflexivity].
  unfold lightDirAt, dot; simpl.
  replace (0 * (0 * -1) + 0 * (0 * -1) + 1 * (1 * -1)) with (-1) by lra.
  rewrite (Rmax_left 0 (-1)) by lra.
  unfold PhongSpec.attenuatedIntensity, black; simpl.
  rewrite clamp01_id; lra.
Qed.

(** C6, as stated, fails: on the backlit example the stated sum has a
    specular term of 0.3 per channel that [calculateLighting] does not add,
    whichever of the two usual reflection formulas is meant by [reflect]. *)
Lemma phong_specular_unguarded_counterexample :
  calculateLighting raytracingSettings backlit_hit backlit_ray backlit_scene
  <> PhongSpec.claimed PhongSpec.mirror raytracingSettings backlit_hit
                       backlit_ray backlit_scene
  /\
  calculateLighting raytracingSettings backlit_hit backlit_ray backlit_scene
  <> PhongSpec.claimed calculateReflection raytracingSettings backlit_hit
                       backlit_ray backlit_scene.
Proof.
  split; intros H; apply (f_equal r) in H;
    rewrite backlit_lighting_r, backlit_claimed_r in H; lra.
Qed.

(** C6, amended.  [calculateLighting] is the ambient term plus, for each
    light that is not in shadow, the diffuse term and, when
    [dot normal lightDir > 0], the specular term taken along the mirror
    direction [2 dot(normal, lightDir) normal - lightDir]; point lights are
    attenuated by [1 + 0.01 lightDistance^2], directional lights are not;
    every channel is clamped to [0,1]. *)
Theorem calculateLighting_phong (st : Settings) (isect : Intersection)
    (ray : Ray) (scene : Scene) :
  calculateLighting st isect ray scene = PhongSpec.amended st isect ray scene.
Proof.
  unfold calculateLighting, PhongSpec.amended, PhongSpec.unshadowed.
  rewrite lighting_loop. reflexivity.
Qed.

(** ** Shadows only remove light *)

Lemma color_le_refl (c : Color) : color_le c c.
Proof. unfold color_le. lra. Qed.

Lemma cadd_le_compat (c1 c2 d1 d2 : Color) :
  color_le c1 c2 -> color_le d1 d2 -> color_le (cadd c1 d1) (cadd c2 d2).
Proof. unfold color_le; simpl. lra. Qed.

Lemma clampColor_mono (c1 c2 : Color) :
  color_le c1 c2 -> color_le (clampColor c1) (clampColor c2).
Proof.
  unfold color_le, clampColor; simpl. intros [Hr [Hg Hb]].
  repeat split; apply clamp01_mono; assumption.
Qed.

Lemma attenuatedIntensity_nonneg (light : Light) (pt : Vector3) :
  0 <= light_intensity light -> 0 <= PhongSpec.attenuatedIntensity light pt.
Proof.
  intros H. unfold PhongSpec.attenuatedIntensity.
  destruct (light_type light); [exact H |].
  apply Rmult_le_pos; [exact H |].
  left. apply Rinv_0_lt_compat.
  pose proof (Rle_0_sqr (length (subtract (light_position light) pt))). lra.
Qed.

Section Contribution.

Variables (isect : Intersection) (ray : Ray) (light : Light).
Hypothesis Hm : material_nonneg (isect_material isect).
Hypothesis Hl : light_nonneg light.

Lemma diffuseTerm_nonneg :
  color_le black (PhongSpec.diffuseTerm isect light).
Proof.
  destruct Hm as [Hr [Hg [Hb [Hd _]]]]. destruct Hl as [Lr [Lg [Lb Li]]].
  pose proof (attenuatedIntensity_nonneg light (isect_point isect) Li).
  pose proof (Rmax_l 0 (dot (isect_normal isect)
                            (lightDirAt light (isect_point isect)))).
  unfold color_le, PhongSpec.diffuseTerm; simpl.
  repeat split; repeat apply Rmult_le_pos; assumption.
Qed.

Lemma litSpecularTerm_nonneg :
  color_le black (PhongSpec.litSpecularTerm isect ray light).
Proof.
  destruct Hm as [_ [_ [_ [_ Hs]]]]. destruct Hl as [Lr [Lg [Lb Li]]].
  pose proof (attenuatedIntensity_nonneg light (isect_point isect) Li).
  unfold PhongSpec.litSpecularTerm.
  destruct (Rlt_dec 0 _); [| apply color_le_refl].
  unfold color_le, PhongSpec.specularTerm; simpl.
  repeat split; repeat apply Rmult_le_pos;
    try assumption; apply Math_pow_nonneg.
Qed.

Lemma contribution_nonneg :
  color_le black (cadd (PhongSpec.diffuseTerm isect light)
                       (PhongSpec.litSpecularTerm isect ray light)).
Proof.
  pose proof diffuseTerm_nonneg as H1.
  pose proof litSpecularTerm_nonneg as H2.
  unfold color_le in *; simpl in *. lra.
Qed.

End Contribution.

Lemma sum_filter_le (f : Light -> Color) (keep : Light -> bool)
    (lights : list Light) :
  Forall (fun light => color_le black (f light)) lights ->
  color_le (sumColors (map f (filter keep lights)))
           (sumColors (map f lights)).
Proof.
  induction 1 as [| light rest Hpos _ IH]; simpl.
  - apply color_le_refl.
  - destruct (keep light); simpl.
    + apply cadd_le_compat; [apply color_le_refl | exact IH].
    + unfold color_le in *; simpl in *. lra.
Qed.

Lemma inShadow_disabled (st : Settings) (light : Light) (pt : Vector3)
    (scene : Scene) :
  inShadow (set_enableShadows false st) light pt scene = false.
Proof. reflexivity. Qed.

Lemma filter_all {A : Type} (l : list A) : filter (fun _ => true) l = l.
Proof. induction l as [| a l IH]; simpl; [| rewrite IH]; reflexivity. Qed.

(** ** The recursive tracer *)

Lemma capped_true (depth : Z) :
  (depth >? MAX_DEPTH)%Z = true <-> (MAX_DEPTH < depth)%Z.
Proof. apply Z.gtb_lt. Qed.

Lemma capped_false (depth : Z) :
  (depth >? MAX_DEPTH)%Z = false <-> (depth <= MAX_DEPTH)%Z.
Proof. rewrite Z.gtb_ltb. apply Z.ltb_ge. Qed.

Section Body.

Variables (st : Settings) (scene : Scene) (backgroundColor : Color).

Lemma traceRay_body_capped (self : Ray -> Z -> option Color) (ray : Ray)
    (depth : Z) :
  (MAX_DEPTH < depth)%Z ->
  traceRay_body self st ray scene backgroundColor depth
  = Some backgroundColor.
Proof.
  intros H. unfold traceRay_body.
  apply capped_true in H. rewrite H. reflexivity.
Qed.

Lemma traceRay_body_miss (self : Ray -> Z -> option Color) (ray : Ray)
    (depth : Z) :
  computeRayIntersection ray scene = None ->
  traceRay_body self st ray scene backgroundColor depth
  = Some backgroundColor.
Proof.
  intros H. unfold traceRay_body. rewrite H.
  destruct (depth >? MAX_DEPTH)%Z; reflexivity.
Qed.

(** The body consults [self] only one level deeper, and only below the
    cap. *)
Lemma traceRay_body_local (self1 self2 : Ray -> Z -> option Color)
    (ray : Ray) (depth : Z) :
  ((depth <= MAX_DEPTH)%Z ->
   forall ray', self1 ray' (depth + 1)%Z = self2 ray' (depth + 1)%Z) ->
  traceRay_body self1 st ray scene backgroundColor depth
  = traceRay_body self2 st ray scene backgroundColor depth.
Proof.
  intros H. unfold traceRay_body.
  destruct (depth >? MAX_DEPTH)%Z eqn:E; [reflexivity |].
  apply capped_false in E. specialize (H E).
  destruct (computeRayIntersection ray scene) as [i |]; [| reflexivity].
  unfold bind.
  destruct (Rlt_dec 0 (mat_reflection (isect_material i)));
    [rewrite H; destruct (self2 _ _); [| reflexivity] |];
    (destruct (Rlt_dec 0 (mat_transparency (isect_material i)));
     [| reflexivity];
     destruct (enableRefraction st); [| reflexivity];
     destruct (calculateRefraction _ _ _); [| reflexivity];
     rewrite H; reflexivity).
Qed.

(** What a returned colour can be. *)
Lemma traceRay_body_result (self : Ray -> Z -> option Color) (ray : Ray)
    (depth : Z) (c : Color) :
  traceRay_body self st ray scene backgroundColor depth = Some c ->
  (c = backgroundColor /\
   ((MAX_DEPTH < depth)%Z \/ computeRayIntersection ray scene = None)) \/
  ((depth <= MAX_DEPTH)%Z /\ computeRayIntersection ray scene <> None /\
   exists c', c = clampColor c').
Proof.
  unfold traceRay_body. intros H.
  destruct (depth >? MAX_DEPTH)%Z eqn:E.
  - left. apply capped_true in E. inversion H. auto.
  - apply capped_false in E.
    destruct (computeRayIntersection ray scene) as [i |].
    + right. split; [exact E |]. split; [discriminate |].
      unfold bind in H.
      repeat match type of H with
             | context [match ?x with _ => _ end] => destruct x
             end;
        try discriminate; inversion H; eexists; reflexivity.
    + left. inversion H. auto.
Qed.

(** The body returns as soon as its recursive calls do. *)
Lemma traceRay_body_returns (self : Ray -> Z -> option Color) (ray : Ray)
    (depth : Z) :
  ((depth <= MAX_DEPTH)%Z ->
   forall ray', exists c, self ray' (depth + 1)%Z = Some c) ->
  exists c, traceRay_body self st ray scene backgroundColor depth = Some c.
Proof.
  intros H. unfold traceRay_body.
  destruct (depth >? MAX_DEPTH)%Z eqn:E; [eexists; reflexivity |].
  apply capped_false in E. specialize (H E).
  destruct (computeRayIntersection ray scene) as [i |];
    [| eexists; reflexivity].
  unfold bind.
  destruct (Rlt_dec 0 (mat_reflection (isect_material i))).
  - destruct (H (mkRay (add (isect_point i) (scale (isect_normal i) 0.001))
                       (calculateReflection (ray_direction ray)
                                            (isect_normal i))))
      as [c1 E1].
    rewrite E1.
    destruct (Rlt_dec 0 (mat_transparency (isect_material i)));
      [| eexists; reflexivity].
    destruct (enableRefraction st); [| eexists; reflexivity].
    destruct (calculateRefraction _ _ _) as [d |]; [| eexists; reflexivity].
    destruct (H (mkRay (subtract (isect_point i)
                                 (scale (isect_normal i) 0.001)) d))
      as [c2 E2].
    rewrite E2. eexists; reflexivity.
  - destruct (Rlt_dec 0 (mat_transparency (isect_material i)));
      [| eexists; reflexivity].
    destruct (enableRefraction st); [| eexists; reflexivity].
    destruct (calculateRefraction _ _ _) as [d |]; [| eexists; reflexivity].
    destruct (H (mkRay (subtract (isect_point i)
                                 (scale (isect_normal i) 0.001)) d))
      as [c2 E2].
    rewrite E2. eexists; reflexivity.
Qed.

Lemma budget_step (depth : Z) (fuel : nat) :
  (depth <= MAX_DEPTH)%Z ->
  (traceRay_budget depth <= S fuel)%nat ->
  (traceRay_budget (depth + 1) <= fuel)%nat.
Proof. unfold traceRay_budget, MAX_DEPTH. lia. Qed.

Lemma traceRay_fuel_returns (fuel : nat) :
  forall ray depth,
    (traceRay_budget depth <= fuel)%nat ->
    exists c, traceRay_fuel fuel st scene backgroundColor ray depth = Some c.
Proof.
  induction fuel as [| fuel IH]; intros ray depth H.
  - unfold traceRay_budget in H. lia.
  - simpl. apply traceRay_body_returns.
    intros Hd ray'. apply IH. apply budget_step; assumption.
Qed.

Lemma traceRay_fuel_stable (fuel1 : nat) :
  forall fuel2 ray depth,
    (traceRay_budget depth <= fuel1)%nat ->
    (traceRay_budget depth <= fuel2)%nat ->
    traceRay_fuel fuel1 st scene backgroundColor ray depth
    = traceRay_fuel fuel2 st scene backgroundColor ray depth.
Proof.
  induction fuel1 as [| fuel1 IH]; intros fuel2 ray depth H1 H2.
  - unfold traceRay_budget in H1. lia.
  - destruct fuel2 as [| fuel2]; [unfold traceRay_budget in H2; lia |].
    simpl. apply traceRay_body_local.
    intros Hd ray'. apply IH; apply budget_step; assumption.
Qed.

Lemma traceRay_fuel_enough (fuel : nat) (ray : Ray) (depth : Z) :
  (traceRay_budget depth <= fuel)%nat ->
  traceRay_fuel fuel st scene backgroundColor ray depth
  = Some (traceRay st ray scene backgroundColor depth).
Proof.
  intros H. unfold traceRay.
  rewrite (traceRay_fuel_stable fuel (traceRay_budget depth) ray depth H
             (le_n _)).
  destruct (traceRay_fuel_returns (traceRay_budget depth) ray depth (le_n _))
    as [c E].
  rewrite E. reflexivity.
Qed.

(** [traceRay] satisfies the recursive equation of the source. *)
Lemma traceRay_equation (ray : Ray) (depth : Z) :
  traceRay_body
    (fun ray' depth' => Some (traceRay st ray' scene backgroundColor depth'))
    st ray scene backgroundColor depth
  = Some (traceRay st ray scene backgroundColor depth).
Proof.
  rewrite <- (traceRay_fuel_enough (traceRay_budget depth) ray depth (le_n _)).
  unfold traceRay_budget at 1. cbn [traceRay_fuel].
  apply traceRay_body_local. intros Hd ray'.
  symmetry. apply traceRay_fuel_enough.
  apply budget_step; [exact Hd | unfold traceRay_budget; lia].
Qed.

End Body.

Lemma traceRay_capped (st : Settings) (ray : Ray) (scene : Scene)
    (backgroundColor : Color) (depth : Z) :
  (MAX_DEPTH < depth)%Z ->
  traceRay st ray scene backgroundColor depth = backgroundColor.
Proof.
  intros H.
  pose proof (traceRay_equation st scene backgroundColor ray depth) as E.
  rewrite traceRay_body_capped in E by exact H.
  injection E as E'. symmetry. exact E'.
Qed.

Lemma traceRay_miss (st : Settings) (ray : Ray) (scene : Scene)
    (backgroundColor : Color) (depth : Z) :
  computeRayIntersection ray scene = None ->
  traceRay st ray scene backgroundColor depth = backgroundColor.
Proof.
  intros H.
  pose proof (traceRay_equation st scene backgroundColor ray depth) as E.
  rewrite traceRay_body_miss in E by exact H.
  injection E as E'. symmetry. exact E'.
Qed.

Lemma traceRay_hit_clamped (st : Settings) (ray : Ray) (scene : Scene)
    (backgroundColor : Color) (depth : Z) :
  (depth <= MAX_DEPTH)%Z -> computeRayIntersection ray scene <> None ->
  exists c, traceRay st ray scene backgroundColor depth = clampColor c.
Proof.
  intros Hd Hh.
  pose proof (traceRay_equation st scene backgroundColor ray depth) as E.
  apply traceRay_body_result in E.
  destruct E as [[_ [E | E]] | [_ [_ E]]].
  - lia.
  - contradiction.
  - exact E.
Qed.

Lemma traceRay_fuel_maxReflectionDepth (v : Z) (st : Settings) (scene : Scene)
    (backgroundColor : Color) (fuel : nat) :
  forall ray depth,
    traceRay_fuel fuel (set_maxReflectionDepth v st) scene backgroundColor
                  ray depth
    = traceRay_fuel fuel st scene backgroundColor ray depth.
Proof.
  induction fuel as [| fuel IH]; intros ray depth; [reflexivity |].
  cbn [traceRay_fuel].
  transitivity
    (traceRay_body
       (traceRay_fuel fuel (set_maxReflectionDepth v st) scene backgroundColor)
       st ray scene backgroundColor depth).
  - reflexivity.
  - apply traceRay_body_local. intros _ ray'. apply IH.
Qed.


(** C3.  [traceRay] returns for every input, the nesting of its calls
    being bounded through the fixed cap [MAX_DEPTH = 5]: a call at a depth
    above 5 returns the background colour without calling itself; a call
    at [depth] calls itself only at [depth + 1]; so a call at [depth]
    nests at most [traceRay_budget depth] deep (7 at depth 0).  The
    setting [maxReflectionDepth] (initially 3) has no influence on the
    result. *)
Theorem traceRay_depth_cap (st : Settings) (ray : Ray) (scene : Scene)
    (backgroundColor : Color) (depth : Z) :
  MAX_DEPTH = 5%Z /\
  maxReflectionDepth raytracingSettings = 3%Z /\
  (forall self,
     (5 < depth)%Z ->
     traceRay_body self st ray scene backgroundColor depth
     = Some backgroundColor) /\
  ((5 < depth)%Z ->
   traceRay st ray scene backgroundColor depth = backgroundColor) /\
  (forall self1 self2,
     (forall ray', self1 ray' (depth + 1)%Z = self2 ray' (depth + 1)%Z) ->
     traceRay_body self1 st ray scene backgroundColor depth
     = traceRay_body self2 st ray scene backgroundColor depth) /\
  (forall fuel,
     (traceRay_budget depth <= fuel)%nat ->
     traceRay_fuel fuel st scene backgroundColor ray depth
     = Some (traceRay st ray scene backgroundColor depth)) /\
  traceRay_budget depth = Z.to_nat (Z.max 1 (7 - depth)) /\
  traceRay_body
    (fun ray' depth' => Some (traceRay st ray' scene backgroundColor depth'))
    st ray scene backgroundColor depth
  = Some (traceRay st ray scene backgroundColor depth) /\
  (forall v,
     traceRay (set_maxReflectionDepth v st) ray scene backgroundColor depth
     = traceRay st ray scene backgroundColor depth).
Proof.
  split; [reflexivity |].
  split; [reflexivity |].
  split; [intros self H; apply traceRay_body_capped; exact H |].
  split; [apply traceRay_capped |].
  split; [intros self1 self2 H; apply traceRay_body_local;
          intros _; exact H |].
  split; [intros fuel H; apply traceRay_fuel_enough; exact H |].
  split; [unfold traceRay_budget, MAX_DEPTH; lia |].
  split; [apply traceRay_equation |].
  intros v. unfold traceRay.
  rewrite traceRay_fuel_maxReflectionDepth. reflexivity.
Qed.

(** A call at depth 6, in a scene where the ray would hit the sphere. *)
Lemma traceRay_depth_cap_witness :
  traceRay raytracingSettings scenario_ray
           (scenario_scene (Material_default (mkColor 1 0 0)))
           (mkColor 0.1 0.1 0.1) 6
  = mkColor 0.1 0.1 0.1.
Proof.
  apply (proj1 (proj2 (proj2 (proj2
           (traceRay_depth_cap raytracingSettings scenario_ray
              (scenario_scene (Material_default (mkColor 1 0 0)))
              (mkColor 0.1 0.1 0.1) 6))))).
  lia.
Defined.

(** ** Camera basis under pan and tilt *)

Lemma vector_eq (v w : Vector3) :
  vx v = vx w -> vy v = vy w -> vz v = vz w -> v = w.
Proof. destruct v, w; simpl; intros; subst; reflexivity. Qed.

Lemma normalize_eq_unit (v u : Vector3) :
  vx v = vx u -> vy v = vy u -> vz v = vz u -> dot u u = 1 ->
  normalize v = u.
Proof.
  intros Hx Hy Hz Hu.
  rewrite (vector_eq v u Hx Hy Hz). apply normalize_unit. exact Hu.
Qed.

(** Normalizing a positive multiple of a unit vector gives the unit
    vector back. *)
Lemma normalize_multiple (v u : Vector3) (k : R) :
  0 < k -> dot u u = 1 ->
  vx v = k * vx u -> vy v = k * vy u -> vz v = k * vz u ->
  normalize v = u.
Proof.
  intros Hk Hu Hx Hy Hz.
  assert (Hl : length v = k).
  { unfold length.
    replace (dot v v) with (k * k * dot u u)
      by (unfold dot; rewrite Hx, Hy, Hz; ring).
    rewrite Hu, Rmult_1_r. apply sqrt_square. lra. }
  unfold normalize. rewrite Hl.
  destruct (Req_dec_T k 0) as [E | _]; [lra |].
  apply vector_eq; simpl; rewrite ?Hx, ?Hy, ?Hz; field; lra.
Qed.

(** Closes [normalize v = u] for a unit vector [u] given by its
    components. *)
Ltac unit_vector := apply normalize_eq_unit; unfold dot; simpl; lra.

Lemma rolled_camera_direction :
  cam_direction rolled_camera = mkVector3 0 0 (-1).
Proof.
  unfold rolled_camera, Camera_new; simpl.
  unit_vector.
Qed.

Lemma rolled_camera_right :
  cam_right rolled_camera = mkVector3 (3/5) (4/5) 0.
Proof.
  pose proof rolled_camera_direction as D.
  unfold rolled_camera, Camera_new in *; simpl in *. rewrite D.
  unit_vector.
Qed.

Lemma rolled_camera_up :
  cam_up rolled_camera = mkVector3 (-4/5) (3/5) 0.
Proof.
  pose proof rolled_camera_direction as D.
  pose proof rolled_camera_right as Rt.
  unfold rolled_camera, Camera_new in *; simpl in *. rewrite Rt, D.
  unit_vector.
Qed.

Lemma quarter_turn : 90 * PI / 180 = PI / 2.
Proof. lra. Qed.

Lemma tilted_direction :
  cam_direction (tilt 90 rolled_camera) = mkVector3 0 1 0.
Proof.
  unfold tilt; cbn [cam_direction].
  rewrite quarter_turn, cos_PI2, sin_PI2, rolled_camera_direction.
  unit_vector.
Qed.

Lemma tilted_right :
  cam_right (tilt 90 rolled_camera) = mkVector3 (3/5) (4/5) 0.
Proof. unfold tilt; cbn [cam_right]. apply rolled_camera_right. Qed.

Lemma tilted_cross :
  cross (cam_right rolled_camera) (cam_direction (tilt 90 rolled_camera))
  = mkVector3 0 0 (3/5).
Proof.
  rewrite tilted_direction, rolled_camera_right.
  apply vector_eq; simpl; lra.
Qed.

Lemma tilted_up :
  cam_up (tilt 90 rolled_camera) = mkVector3 0 0 1.
Proof.
  pose proof tilted_cross as C.
  unfold tilt in *; cbn [cam_up cam_direction] in *. rewrite C.
  apply (normalize_multiple _ _ (3/5)); unfold dot; simpl; lra.
Qed.

Lemma cross_orthogonal_l (a c : Vector3) : dot (cross a c) a = 0.
Proof. unfold dot, cross; simpl. ring. Qed.

Lemma cross_orthogonal_r (a c : Vector3) : dot (cross a c) c = 0.
Proof. unfold dot, cross; simpl. ring. Qed.

Lemma dot_comm (a c : Vector3) : dot a c = dot c a.
Proof. unfold dot. ring. Qed.

(** Lagrange's identity. *)
Lemma cross_norm (a c : Vector3) :
  dot (cross a c) (cross a c) = dot a a * dot c c - dot a c * dot a c.
Proof. unfold dot, cross; simpl. ring. Qed.

Lemma length_sqr (v : Vector3) : length v * length v = dot v v.
Proof. unfold length. apply sqrt_sqrt. apply dot_self_nonneg. Qed.

Lemma normalize_is_unit (v : Vector3) :
  length v <> 0 -> dot (normalize v) (normalize v) = 1.
Proof.
  intros H. pose proof (length_sqr v) as L.
  unfold normalize. destruct (Req_dec_T (length v) 0) as [E | _];
    [contradiction |].
  unfold dot in *; simpl. field_simplify_eq; [| exact H]. lra.
Qed.

Lemma normalize_orthogonal (v w : Vector3) :
  dot v w = 0 -> dot (normalize v) w = 0.
Proof.
  intros H. unfold normalize.
  destruct (Req_dec_T (length v) 0) as [E | N].
  - unfold dot; simpl. ring.
  - unfold dot in *; simpl.
    replace (vx v / length v * vx w + vy v / length v * vy w
             + vz v / length v * vz w)
      with ((vx v * vx w + vy v * vy w + vz v * vz w) / length v)
      by (field; exact N).
    rewrite H. unfold Rdiv. ring.
Qed.

(** The rotated direction of [pan] and of [tilt] keeps its length. *)
Lemma rotated_xz_unit (d : Vector3) (t : R) :
  dot d d = 1 ->
  dot (mkVector3 (vx d * cos t - vz d * sin t) (vy d)
                 (vx d * sin t + vz d * cos t))
      (mkVector3 (vx d * cos t - vz d * sin t) (vy d)
                 (vx d * sin t + vz d * cos t)) = 1.
Proof.
  intros H. pose proof (sin2_cos2 t) as T. unfold Rsqr in T.
  unfold dot in *; simpl. nra.
Qed.

Lemma rotated_yz_unit (d : Vector3) (t : R) :
  dot d d = 1 ->
  dot (mkVector3 (vx d) (vy d * cos t - vz d * sin t)
                 (vy d * sin t + vz d * cos t))
      (mkVector3 (vx d) (vy d * cos t - vz d * sin t)
                 (vy d * sin t + vz d * cos t)) = 1.
Proof.
  intros H. pose proof (sin2_cos2 t) as T. unfold Rsqr in T.
  unfold dot in *; simpl. nra.
Qed.

(** Re-deriving [up] from a unit [right] orthogonal to a unit [direction]
    completes an orthonormal basis. *)
Lemma completed_basis (right direction : Vector3) :
  dot right right = 1 -> dot direction direction = 1 ->
  dot right direction = 0 ->
  let up := normalize (cross right direction) in
  dot up up = 1 /\ dot right up = 0 /\ dot up direction = 0.
Proof.
  intros Hr Hd Ho up.
  assert (U : dot (cross right direction) (cross right direction) = 1).
  { rewrite cross_norm, Hr, Hd, Ho. ring. }
  subst up. rewrite (normalize_unit _ U).
  split; [exact U |]. split.
  - rewrite dot_comm. apply cross_orthogonal_l.
  - apply cross_orthogonal_r.
Qed.

(** X26.  [pan] re-derives both [right] and [up]: the basis is orthonormal
    afterwards whenever the direction was a unit vector and the cross
    product taken for [right] is not the zero vector. *)
Lemma pan_orthonormal (degrees : R) (c : Camera) :
  dot (cam_direction c) (cam_direction c) = 1 ->
  length (cross (cam_direction (pan degrees c)) (cam_up c)) <> 0 ->
  orthonormal (pan degrees c).
Proof.
  intros Hd Hn. unfold pan in *; cbn [cam_direction] in *.
  set (t := - degrees * PI / 180) in *.
  pose proof (rotated_xz_unit (cam_direction c) t Hd) as Hv.
  rewrite (normalize_unit _ Hv) in *.
  set (d := mkVector3 _ _ _) in *.
  unfold orthonormal; cbn [cam_right cam_up cam_direction].
  set (rt := normalize (cross d (cam_up c))).
  assert (Hr : dot rt rt = 1) by (apply normalize_is_unit; exact Hn).
  assert (Ho : dot rt d = 0)
    by (apply normalize_orthogonal; apply cross_orthogonal_l).
  destruct (completed_basis rt d Hr Hv Ho) as [H1 [H2 H3]].
  repeat split; assumption.
Qed.

(** X27.  [tilt] keeps [right]: the basis is orthonormal afterwards exactly when
    the kept [right] is orthogonal to the rotated direction. *)
Lemma tilt_orthonormal (degrees : R) (c : Camera) :
  orthonormal c ->
  (orthonormal (tilt degrees c) <->
   dot (cam_right c) (cam_direction (tilt degrees c)) = 0).
Proof.
  intros [Hr [_ [Hd _]]]. split.
  - intros [_ [_ [_ [_ [H _]]]]]. exact H.
  - intros Ho. unfold tilt in *; cbn [cam_direction cam_right] in *.
    set (t := degrees * PI / 180) in *.
    pose proof (rotated_yz_unit (cam_direction c) t Hd) as Hv.
    rewrite (normalize_unit _ Hv) in *.
    set (d := mkVector3 _ _ _) in *.
    unfold orthonormal; cbn [cam_right cam_up cam_direction].
    destruct (completed_basis (cam_right c) d Hr Hv Ho) as [H1 [H2 H3]].
    repeat split; assumption.
Qed.

(** The same defect from the default camera: pan by 45 degrees, then tilt
    by 90. *)
Lemma eighth_turn : - (45) * PI / 180 = - (PI / 4).
Proof. lra. Qed.

Lemma inv_sqrt2_sqr : 1 / sqrt 2 * (1 / sqrt 2) = 1 / 2.
Proof.
  assert (H : sqrt 2 * sqrt 2 = 2) by (apply sqrt_sqrt; lra).
  assert (P : 0 < sqrt 2) by (apply sqrt_lt_R0; lra).
  field_simplify_eq; [| lra]. lra.
Qed.

Lemma default_camera_basis :
  cam_direction default_camera = mkVector3 0 0 (-1) /\
  cam_right default_camera = mkVector3 1 0 0 /\
  cam_up default_camera = mkVector3 0 1 0.
Proof.
  assert (D : cam_direction default_camera = mkVector3 0 0 (-1)).
  { unfold default_camera, Camera_new; simpl.
    unit_vector. }
  assert (Rt : cam_right default_camera = mkVector3 1 0 0).
  { unfold default_camera, Camera_new in *; simpl in *. rewrite D.
    unit_vector. }
  split; [exact D | split; [exact Rt |]].
  unfold default_camera, Camera_new in *; simpl in *. rewrite Rt, D.
  unit_vector.
Qed.

Lemma panned_basis :
  let s := 1 / sqrt 2 in
  cam_direction (pan 45 default_camera) = mkVector3 (- s) 0 (- s) /\
  cam_right (pan 45 default_camera) = mkVector3 s 0 (- s) /\
  cam_up (pan 45 default_camera) = mkVector3 0 1 0.
Proof.
  intros s. pose proof inv_sqrt2_sqr as Hs. fold s in Hs.
  destruct default_camera_basis as [D [_ U]].
  assert (D' : cam_direction (pan 45 default_camera)
               = mkVector3 (- s) 0 (- s)).
  { unfold pan; cbn [cam_direction].
    rewrite eighth_turn, cos_neg, sin_neg, cos_PI4, sin_PI4, D. fold s.
    unit_vector. }
  assert (R' : cam_right (pan 45 default_camera) = mkVector3 s 0 (- s)).
  { unfold pan in *; cbn [cam_direction cam_right] in *. rewrite D', U.
    unit_vector. }
  split; [exact D' | split; [exact R' |]].
  unfold pan in *; cbn [cam_direction cam_right cam_up] in *.
  rewrite R', D'.
  unit_vector.
Qed.

Lemma panned_tilted_dot :
  dot (cam_right (tilt 90 (pan 45 default_camera)))
      (cam_direction (tilt 90 (pan 45 default_camera))) = - (1 / 2).
Proof.
  pose proof inv_sqrt2_sqr as Hs.
  destruct panned_basis as [D [Rt _]].
  unfold tilt; cbn [cam_direction cam_right].
  rewrite quarter_turn, cos_PI2, sin_PI2, D, Rt; cbn [vx vy vz].
  rewrite (normalize_eq_unit _ (mkVector3 (- (1 / sqrt 2)) (1 / sqrt 2) 0));
    unfold dot; simpl; lra.
Qed.

(** C2 at a concrete camera.  The rolled camera has an orthonormal basis;
    one [tilt 90] turns [direction] to (0,1,0) while [right] stays
    (3/5,4/5,0); the cross product normalized for [up] is (0,0,3/5), not
    the zero vector; and [right] and [direction] end up with dot product
    4/5, so the basis is no longer orthogonal.  The default camera loses
    orthogonality in the same way after a pan by 45 and a tilt by 90
    degrees. *)
Theorem tilt_breaks_orthogonality :
  orthonormal rolled_camera /\
  cam_direction (tilt 90 rolled_camera) = mkVector3 0 1 0 /\
  cam_right (tilt 90 rolled_camera) = mkVector3 (3/5) (4/5) 0 /\
  cam_up (tilt 90 rolled_camera) = mkVector3 0 0 1 /\
  length (cross (cam_right rolled_camera)
                (cam_direction (tilt 90 rolled_camera))) <> 0 /\
  dot (cam_right (tilt 90 rolled_camera))
      (cam_direction (tilt 90 rolled_camera)) = 4/5 /\
  ~ orthonormal (rotations [Tilt 90] rolled_camera) /\
  orthonormal default_camera /\
  ~ orthonormal (rotations [Pan 45; Tilt 90] default_camera).
Proof.
  split.
  { unfold orthonormal.
    rewrite rolled_camera_direction, rolled_camera_right, rolled_camera_up.
    unfold dot; simpl. repeat split; lra. }
  split; [apply tilted_direction |].
  split; [apply tilted_right |].
  split; [apply tilted_up |].
  split.
  { rewrite tilted_cross. unfold length, dot; simpl.
    replace (0 * 0 + 0 * 0 + 3 / 5 * (3 / 5)) with (3/5 * (3/5)) by lra.
    rewrite sqrt_square; lra. }
  split.
  { rewrite tilted_direction, tilted_right. unfold dot; simpl. lra. }
  split.
  { unfold rotations, orthonormal; cbn [fold_left rotate].
    rewrite tilted_direction, tilted_right.
    intros [_ [_ [_ [_ [H _]]]]]. unfold dot in H; simpl in H. lra. }
  split.
  { destruct default_camera_basis as [D [Rt U]].
    unfold orthonormal. rewrite D, Rt, U.
    unfold dot; simpl. repeat split; lra. }
  unfold rotations, orthonormal; cbn [fold_left rotate].
  rewrite panned_tilted_dot.
  intros [_ [_ [_ [_ [H _]]]]]. lra.
Qed.

(** ** More on the vector kernel and on rays *)

Lemma length_zero_iff (v : Vector3) :
  length v = 0 <-> v = mkVector3 0 0 0.
Proof.
  split.
  - intros H. unfold length in H.
    apply sqrt_eq_0 in H; [| apply dot_self_nonneg].
    unfold dot in H. destruct v as [a b' c]; simpl in H.
    assert (a = 0) by nra. assert (b' = 0) by nra. assert (c = 0) by nra.
    subst. reflexivity.
  - intros ->. unfold length, dot; simpl.
    replace (0 * 0 + 0 * 0 + 0 * 0) with 0 by ring. apply sqrt_0.
Qed.

Lemma length_nonneg (v : Vector3) : 0 <= length v.
Proof. unfold length. apply sqrt_pos. Qed.

Lemma length_of_unit (v : Vector3) : dot v v = 1 <-> length v = 1.
Proof.
  split; [apply length_unit |].
  intros H. rewrite <- length_sqr, H. ring.
Qed.

Lemma normalize_zero : normalize (mkVector3 0 0 0) = mkVector3 0 0 0.
Proof.
  unfold normalize.
  destruct (Req_dec_T (length (mkVector3 0 0 0)) 0) as [_ | N];
    [reflexivity |].
  exfalso. apply N. apply length_zero_iff. reflexivity.
Qed.

(** X1.  [normalize] gives the zero vector exactly for the zero vector, a unit
    vector for every other input, and normalizing twice changes nothing. *)
Theorem normalize_zero_or_unit (v : Vector3) :
  (normalize v = mkVector3 0 0 0 <-> v = mkVector3 0 0 0) /\
  (v <> mkVector3 0 0 0 -> length (normalize v) = 1) /\
  normalize (normalize v) = normalize v.
Proof.
  assert (Hz : v = mkVector3 0 0 0 -> normalize v = mkVector3 0 0 0)
    by (intros ->; apply normalize_zero).
  assert (Hu : v <> mkVector3 0 0 0 -> dot (normalize v) (normalize v) = 1).
  { intros N. apply normalize_is_unit. intros E. apply N.
    apply length_zero_iff. exact E. }
  split; [split |]; [| exact Hz | split].
  - intros E.
    destruct (Req_dec_T (length v) 0) as [L | L];
      [apply length_zero_iff; exact L |].
    exfalso.
    assert (U : dot (normalize v) (normalize v) = 1)
      by (apply normalize_is_unit; exact L).
    rewrite E in U. unfold dot in U; simpl in U. lra.
  - intros N. apply length_unit. apply Hu. exact N.
  - destruct (Req_dec_T (length v) 0) as [L | L].
    + apply length_zero_iff in L. rewrite (Hz L). apply normalize_zero.
    + apply normalize_unit. apply normalize_is_unit. exact L.
Qed.

Lemma normalize_zero_or_unit_witness :
  length (normalize (mkVector3 3 0 0)) = 1.
Proof.
  apply (proj1 (proj2 (normalize_zero_or_unit (mkVector3 3 0 0)))).
  intros E. apply (f_equal vx) in E. simpl in E. lra.
Defined.

(** X2.  [cross] is orthogonal to both operands, changes sign when they are
    swapped, and its squared length is
    [|a|^2 |c|^2 - (dot a c)^2]. *)
Theorem cross_properties (a c : Vector3) :
  dot (cross a c) a = 0 /\
  dot (cross a c) c = 0 /\
  cross c a = scale (cross a c) (-1) /\
  dot (cross a c) (cross a c) = dot a a * dot c c - dot a c * dot a c.
Proof.
  split; [apply cross_orthogonal_l |].
  split; [apply cross_orthogonal_r |].
  split; [apply vector_eq; simpl; ring | apply cross_norm].
Qed.

Lemma length_scale (v : Vector3) (k : R) :
  length (scale v k) = Rabs k * length v.
Proof.
  unfold length.
  replace (dot (scale v k) (scale v k)) with (k * k * dot v v)
    by (unfold dot, scale; simpl; ring).
  rewrite sqrt_mult_alt by nra.
  f_equal. replace (k * k) with (Rsqr k) by reflexivity. apply sqrt_Rsqr_abs.
Qed.

(** X3.  [Ray.at]: parameter 0 is the origin; the point at [t] lies
    [|t| * length direction] from the origin, so at distance [t] for a
    unit direction and [t >= 0]; and continuing from [at s] by [t] along
    the same direction is [at (s + t)]. *)
Theorem ray_at_distance (ray : Ray) (s t : R) :
  ray_at ray 0 = ray_origin ray /\
  length (subtract (ray_at ray t) (ray_origin ray))
  = Rabs t * length (ray_direction ray) /\
  (dot (ray_direction ray) (ray_direction ray) = 1 -> 0 <= t ->
   length (subtract (ray_at ray t) (ray_origin ray)) = t) /\
  ray_at (mkRay (ray_at ray s) (ray_direction ray)) t = ray_at ray (s + t).
Proof.
  assert (E : subtract (ray_at ray t) (ray_origin ray)
              = scale (ray_direction ray) t)
    by (apply vector_eq; simpl; ring).
  split; [apply vector_eq; simpl; ring |].
  split; [rewrite E; apply length_scale |].
  split.
  - intros Hu Ht. rewrite E, length_scale, (length_unit _ Hu).
    rewrite Rabs_right by lra. ring.
  - apply vector_eq; simpl; ring.
Qed.

Lemma ray_at_distance_witness :
  length (subtract (ray_at scenario_ray 4) (ray_origin scenario_ray)) = 4.
Proof.
  apply (proj1 (proj2 (proj2 (ray_at_distance scenario_ray 0 4)))).
  - unfold dot; simpl. lra.
  - lra.
Defined.

(** ** Where the hits lie *)

Lemma qa_zero_iff (ray : Ray) :
  SphereOps.qa ray = 0 <-> ray_direction ray = mkVector3 0 0 0.
Proof.
  unfold SphereOps.qa. rewrite <- length_zero_iff. unfold length. split.
  - intros H. rewrite H. apply sqrt_0.
  - intros H. apply sqrt_eq_0 in H; [exact H | apply dot_self_nonneg].
Qed.

Lemma on_sphere_of_root (s : Sphere) (ray : Ray) (t : R) :
  SphereOps.qa ray * (t * t) + SphereOps.qb s ray * t + SphereOps.qc s ray = 0
  ->
  dot (subtract (ray_at ray t) (sphere_center s))
      (subtract (ray_at ray t) (sphere_center s))
  = sphere_radius s * sphere_radius s.
Proof.
  unfold SphereOps.qa, SphereOps.qb, SphereOps.qc, SphereOps.oc, dot, ray_at;
    simpl.
  intros H. lra.
Qed.

Lemma scenario_intersect (m : Material) :
  SphereOps.intersect (scenario_sphere m) scenario_ray
  = Some (SphereOps.hit (scenario_sphere m) scenario_ray 4).
Proof.
  destruct (intersect_cases (scenario_sphere m) scenario_ray)
    as [[H _] | [[_ [_ E]] | [[_ [H _]] | [_ [H _]]]]];
    rewrite ?scenario_discriminant, ?scenario_root1 in *; try lra.
  exact E.
Qed.

(** X4.  A hit reported by [Sphere.intersect] for a ray with a non-zero
    direction lies on the ray at the reported distance and on the sphere;
    for a positive radius its normal is the unit vector
    [(point - center) / radius]. *)
Theorem sphere_hit_on_surface (s : Sphere) (ray : Ray) (i : Intersection) :
  ray_direction ray <> mkVector3 0 0 0 ->
  SphereOps.intersect s ray = Some i ->
  isect_point i = ray_at ray (isect_distance i) /\
  dot (subtract (isect_point i) (sphere_center s))
      (subtract (isect_point i) (sphere_center s))
  = sphere_radius s * sphere_radius s /\
  (0 < sphere_radius s ->
   isect_normal i
   = scale (subtract (isect_point i) (sphere_center s)) (/ sphere_radius s)
   /\ dot (isect_normal i) (isect_normal i) = 1).
Proof.
  intros Hd H.
  assert (Ha : SphereOps.qa ray <> 0)
    by (intros E; apply Hd; apply qa_zero_iff; exact E).
  assert (Ht : exists t, i = SphereOps.hit s ray t /\
                 SphereOps.qa ray * (t * t) + SphereOps.qb s ray * t
                 + SphereOps.qc s ray = 0).
  { destruct (intersect_cases s ray)
      as [[_ E] | [[D [_ E]] | [[D [_ [_ E]]] | [_ [_ [_ E]]]]]];
      rewrite E in H; try discriminate; injection H as <-;
        eexists; (split; [reflexivity |]);
        apply (roots_solve s ray D Ha). }
  destruct Ht as [t [-> Hroot]].
  pose proof (on_sphere_of_root s ray t Hroot) as Hs.
  cbn [SphereOps.hit isect_point isect_distance isect_normal].
  split; [reflexivity |]. split; [exact Hs |].
  intros Hr.
  set (v := subtract (ray_at ray t) (sphere_center s)) in *.
  assert (Hl : length v = sphere_radius s).
  { unfold length. rewrite Hs. apply sqrt_square. lra. }
  assert (En : normalize v = scale v (/ sphere_radius s)).
  { unfold normalize. rewrite Hl.
    destruct (Req_dec_T (sphere_radius s) 0); [lra |].
    apply vector_eq; reflexivity. }
  split; [exact En |].
  apply normalize_is_unit. rewrite Hl. lra.
Qed.

Lemma sphere_hit_on_surface_witness :
  isect_point (SphereOps.hit (scenario_sphere (Material_default (mkColor 1 0 0)))
                             scenario_ray 4)
  = ray_at scenario_ray 4.
Proof.
  apply (fun Hd H =>
           proj1 (sphere_hit_on_surface
                    (scenario_sphere (Material_default (mkColor 1 0 0)))
                    scenario_ray
                    (SphereOps.hit
                       (scenario_sphere (Material_default (mkColor 1 0 0)))
                       scenario_ray 4)
                    Hd H)).
  - intros E. apply (f_equal vz) in E. simpl in E. lra.
  - apply scenario_intersect.
Defined.

Lemma div_nonpos (x y : R) : x <= 0 -> 0 < y -> x / y <= 0.
Proof.
  intros Hx Hy. pose proof (Rinv_0_lt_compat y Hy). unfold Rdiv. nra.
Qed.

(** X5.  A ray that starts outside a sphere and does not point towards its
    centre ([dot (origin - center) direction >= 0]) reports no hit. *)
Theorem sphere_behind_ray_missed (s : Sphere) (ray : Ray) :
  ray_direction ray <> mkVector3 0 0 0 ->
  sphere_radius s * sphere_radius s
  < dot (SphereOps.oc s ray) (SphereOps.oc s ray) ->
  0 <= dot (SphereOps.oc s ray) (ray_direction ray) ->
  SphereOps.intersect s ray = None.
Proof.
  intros Hd Hout Haway.
  assert (Ha : 0 < SphereOps.qa ray).
  { pose proof (qa_nonneg ray).
    assert (SphereOps.qa ray <> 0)
      by (intros E; apply Hd; apply qa_zero_iff; exact E).
    lra. }
  assert (Hc : 0 < SphereOps.qc s ray) by (unfold SphereOps.qc; lra).
  assert (Hb : 0 <= SphereOps.qb s ray) by (unfold SphereOps.qb; lra).
  destruct (intersect_cases s ray)
    as [[_ E] | [[D [H1 _]] | [[D [_ [H2 _]]] | [_ [_ [_ E]]]]]];
    try exact E; exfalso.
  - assert (SphereOps.root1 s ray <= 0); [| lra].
    unfold SphereOps.root1.
    pose proof (sqrt_pos (SphereOps.discriminant s ray)).
    apply div_nonpos; lra.
  - assert (SphereOps.root2 s ray <= 0); [| lra].
    unfold SphereOps.root2.
    assert (sqrt (SphereOps.discriminant s ray) <= SphereOps.qb s ray).
    { apply Rle_trans
        with (sqrt (SphereOps.qb s ray * SphereOps.qb s ray)).
      - apply sqrt_le_1_alt. unfold SphereOps.discriminant. nra.
      - rewrite sqrt_square by exact Hb. lra. }
    apply div_nonpos; lra.
Qed.

(** The scenario sphere seen from the origin along -z. *)
Lemma sphere_behind_ray_missed_witness :
  SphereOps.intersect (scenario_sphere (Material_default (mkColor 1 0 0)))
                      (mkRay (mkVector3 0 0 0) (mkVector3 0 0 (-1)))
  = None.
Proof.
  apply sphere_behind_ray_missed.
  - intros E. apply (f_equal vz) in E. simpl in E. lra.
  - unfold SphereOps.oc, dot; simpl. lra.
  - unfold SphereOps.oc, dot; simpl. lra.
Defined.

(** X6.  A unit ray aimed at the centre of a sphere from at least 0.001 outside
    it, the centre being [L] away, hits at distance [L - radius], and the
    normal there points straight back along the ray. *)
Theorem sphere_hit_through_center (o d : Vector3) (L rad : R) (m : Material) :
  dot d d = 1 -> 0 < rad -> rad + 0.001 <= L ->
  SphereOps.intersect (mkSphere (add o (scale d L)) rad m) (mkRay o d)
  = Some (mkIntersection (add o (scale d (L - rad))) (L - rad)
                         (scale d (-1)) m).
Proof.
  intros Hu Hr HL.
  set (s := mkSphere (add o (scale d L)) rad m). set (ray := mkRay o d).
  assert (Ea : SphereOps.qa ray = 1) by exact Hu.
  assert (Eb : SphereOps.qb s ray = - (2 * L)).
  { unfold SphereOps.qb, SphereOps.oc, dot in *; simpl in *. nra. }
  assert (Ec : SphereOps.qc s ray = L * L - rad * rad).
  { unfold SphereOps.qc, SphereOps.oc, dot in *; simpl in *. nra. }
  assert (ED : SphereOps.discriminant s ray = (2 * rad) * (2 * rad)).
  { unfold SphereOps.discriminant. rewrite Ea, Eb, Ec. ring. }
  assert (E1 : SphereOps.root1 s ray = L - rad).
  { unfold SphereOps.root1. rewrite ED, sqrt_square, Ea, Eb by lra. lra. }
  assert (Eh : SphereOps.hit s ray (L - rad)
               = mkIntersection (add o (scale d (L - rad))) (L - rad)
                                (scale d (-1)) m).
  { unfold SphereOps.hit, ray_at. cbn [ray_origin ray_direction s ray
                                       sphere_center sphere_material].
    f_equal.
    apply (normalize_multiple _ _ rad); [exact Hr | | | |].
    - unfold dot in *; simpl. nra.
    - simpl. ring.
    - simpl. ring.
    - simpl. ring. }
  destruct (intersect_cases s ray)
    as [[H _] | [[_ [_ E]] | [[_ [H _]] | [_ [H _]]]]];
    rewrite ?ED, ?E1 in *; try nra.
  rewrite E. f_equal. exact Eh.
Qed.

Lemma sphere_hit_through_center_witness :
  SphereOps.intersect
    (mkSphere (add (mkVector3 0 0 0) (scale (mkVector3 0 0 1) 5)) 1
              (Material_default (mkColor 1 0 0)))
    (mkRay (mkVector3 0 0 0) (mkVector3 0 0 1))
  = Some (mkIntersection
            (add (mkVector3 0 0 0) (scale (mkVector3 0 0 1) (5 - 1))) (5 - 1)
            (scale (mkVector3 0 0 1) (-1))
            (Material_default (mkColor 1 0 0))).
Proof.
  apply sphere_hit_through_center.
  - unfold dot; simpl. lra.
  - lra.
  - lra.
Defined.

(** X7.  A hit reported by [Plane.intersect] lies on the ray at the reported
    distance and in the plane, carries the stored normal, and the ray
    runs against that normal: [dot direction normal <= -0.0001]. *)
Theorem plane_hit_in_plane (p : Plane) (ray : Ray) (i : Intersection) :
  PlaneOps.intersect p ray = Some i ->
  isect_point i = ray_at ray (isect_distance i) /\
  dot (subtract (isect_point i) (plane_point p)) (plane_normal p) = 0 /\
  isect_normal i = plane_normal p /\
  isect_material i = plane_material p /\
  dot (ray_direction ray) (plane_normal p) <= - 0.0001.
Proof.
  unfold PlaneOps.intersect. intros H.
  destruct (Rlt_dec (Rabs (PlaneOps.denom p ray)) 0.0001) as [| Ha];
    [discriminate |].
  destruct (Rlt_dec 0 (PlaneOps.denom p ray)) as [| Hb]; [discriminate |].
  destruct (Rlt_dec (PlaneOps.param p ray) 0.001) as [| Hc]; [discriminate |].
  injection H as <-. cbn [isect_point isect_distance isect_normal
                           isect_material].
  assert (Hd : PlaneOps.denom p ray <= - 0.0001).
  { apply Rnot_lt_le in Ha. apply Rnot_lt_le in Hb.
    rewrite Rabs_left1 in Ha by exact Hb. lra. }
  repeat split; try exact Hd.
  unfold PlaneOps.param.
  set (k := dot (subtract (plane_point p) (ray_origin ray)) (plane_normal p)).
  assert (Ek : dot (subtract (ray_at ray (k / PlaneOps.denom p ray))
                             (plane_point p)) (plane_normal p)
               = k / PlaneOps.denom p ray * PlaneOps.denom p ray - k).
  { unfold k, PlaneOps.denom, dot, ray_at; simpl. ring. }
  rewrite Ek. field. lra.
Qed.

Lemma plane_hit_in_plane_witness :
  dot (ray_direction falling_ray)
      (plane_normal (floor_plane (Material_default (mkColor 1 1 1))))
  <= - 0.0001.
Proof.
  refine (proj2 (proj2 (proj2 (proj2
            (plane_hit_in_plane
               (floor_plane (Material_default (mkColor 1 1 1))) falling_ray
               _ _))))).
  apply plane_accept.
  - rewrite falling_denom. rewrite Rabs_left; lra.
  - rewrite falling_denom. lra.
  - rewrite falling_param. lra.
Defined.

(** ** The nearest hit *)

(** What the loop of [computeRayIntersection] leaves behind: nothing when
    every object misses; otherwise the hit of an object that is strictly
    nearer than every hit of the objects before it and at least as near
    as every hit of the objects after it. *)
Lemma nearest_split (ray : Ray) (objects : list Geometry) :
  match fold_left (nearer ray) objects None with
  | None => forall object, In object objects -> intersect object ray = None
  | Some i =>
      exists before object after,
        objects = before ++ object :: after /\
        intersect object ray = Some i /\
        (forall o j, In o before -> intersect o ray = Some j ->
                     isect_distance i < isect_distance j) /\
        (forall o j, In o after -> intersect o ray = Some j ->
                     isect_distance i <= isect_distance j)
  end.
Proof.
  induction objects as [| object objects IH] using rev_ind.
  - simpl. intros object [].
  - rewrite fold_left_app. cbn [fold_left].
    destruct (fold_left (nearer ray) objects None) as [i |].
    + destruct IH as [before [oi [after [E [Hi [Hb Ha]]]]]].
      unfold nearer. destruct (intersect object ray) as [j |] eqn:Ej.
      * destruct (Rlt_dec (isect_distance j) (isect_distance i)) as [L | L].
        -- exists objects, object, []. repeat split; try assumption.
           ++ intros o k Ho Hk. subst objects.
              apply in_app_or in Ho. destruct Ho as [Ho | [<- | Ho]].
              ** pose proof (Hb o k Ho Hk). lra.
              ** rewrite Hi in Hk. injection Hk as <-. exact L.
              ** pose proof (Ha o k Ho Hk). lra.
           ++ intros o k [].
        -- exists before, oi, (after ++ [object]).
           repeat split; try assumption.
           ++ rewrite E, <- app_assoc. reflexivity.
           ++ intros o k Ho Hk. apply in_app_or in Ho.
              destruct Ho as [Ho | [<- | []]].
              ** apply (Ha o k Ho Hk).
              ** rewrite Ej in Hk. injection Hk as <-.
                 apply Rnot_lt_le. exact L.
      * exists before, oi, (after ++ [object]).
        repeat split; try assumption.
        -- rewrite E, <- app_assoc. reflexivity.
        -- intros o k Ho Hk. apply in_app_or in Ho.
           destruct Ho as [Ho | [<- | []]].
           ++ apply (Ha o k Ho Hk).
           ++ rewrite Ej in Hk. discriminate.
    + unfold nearer. destruct (intersect object ray) as [j |] eqn:Ej.
      * exists objects, object, []. repeat split; try assumption.
        -- intros o k Ho Hk. rewrite (IH o Ho) in Hk. discriminate.
        -- intros o k [].
      * intros o Ho. apply in_app_or in Ho. destruct Ho as [Ho | [<- | []]].
        -- apply IH. exact Ho.
        -- exact Ej.
Qed.

Lemma nearest_minimal (ray : Ray) (objects : list Geometry)
    (i : Intersection) :
  fold_left (nearer ray) objects None = Some i ->
  (exists object, In object objects /\ intersect object ray = Some i) /\
  (forall o j, In o objects -> intersect o ray = Some j ->
               isect_distance i <= isect_distance j).
Proof.
  intros H. pose proof (nearest_split ray objects) as S. rewrite H in S.
  destruct S as [before [object [after [E [Hi [Hb Ha]]]]]]. subst objects.
  split.
  - exists object. split; [apply in_or_app; right; left; reflexivity | exact Hi].
  - intros o j Ho Hj. apply in_app_or in Ho. destruct Ho as [Ho | [<- | Ho]].
    + left. apply (Hb o j Ho Hj).
    + rewrite Hi in Hj. injection Hj as <-. lra.
    + apply (Ha o j Ho Hj).
Qed.



(** X10.  [Scene.addObject] can only bring the nearest hit closer: afterwards
    the nearest hit is the old one unless the new object is hit strictly
    nearer, and an object the ray misses changes nothing. *)
Theorem addObject_nearest (ray : Ray) (scene : Scene) (object : Geometry) :
  computeRayIntersection ray (Scene_addObject object scene)
  = nearer ray (computeRayIntersection ray scene) object /\
  (intersect object ray = None ->
   computeRayIntersection ray (Scene_addObject object scene)
   = computeRayIntersection ray scene) /\
  (forall i,
     computeRayIntersection ray scene = Some i ->
     exists j,
       computeRayIntersection ray (Scene_addObject object scene) = Some j /\
       isect_distance j <= isect_distance i).
Proof.
  assert (E : computeRayIntersection ray (Scene_addObject object scene)
              = nearer ray (computeRayIntersection ray scene) object).
  { unfold computeRayIntersection, Scene_addObject; cbn [scene_objects].
    rewrite fold_left_app. reflexivity. }
  split; [exact E |]. rewrite E. unfold nearer. split.
  - intros ->. reflexivity.
  - intros i ->. destruct (intersect object ray) as [k |].
    + destruct (Rlt_dec (isect_distance k) (isect_distance i)).
      * exists k. split; [reflexivity | lra].
      * exists i. split; [reflexivity | lra].
    + exists i. split; [reflexivity | lra].
Qed.

Lemma scenario_nearest (m : Material) :
  computeRayIntersection scenario_ray (scenario_scene m)
  = Some (SphereOps.hit (scenario_sphere m) scenario_ray 4).
Proof.
  unfold computeRayIntersection, scenario_scene; cbn [scene_objects fold_left].
  unfold nearer, intersect. rewrite scenario_intersect. reflexivity.
Qed.

(** A second sphere added to the scenario scene. *)
Lemma addObject_nearest_witness :
  exists j,
    computeRayIntersection scenario_ray
      (Scene_addObject
         (GSphere (mkSphere (mkVector3 0 0 9) 1 (Material_default (mkColor 0 1 0))))
         (scenario_scene (Material_default (mkColor 1 0 0))))
    = Some j /\
    isect_distance j
    <= isect_distance
         (SphereOps.hit (scenario_sphere (Material_default (mkColor 1 0 0)))
                        scenario_ray 4).
Proof.
  apply (proj2 (proj2 (addObject_nearest _ _ _))).
  apply scenario_nearest.
Defined.

(** ** More on lighting *)




Lemma backfacing_contribution (isect : Intersection) (ray : Ray)
    (light : Light) :
  dot (isect_normal isect) (lightDirAt light (isect_point isect)) <= 0 ->
  cadd (PhongSpec.diffuseTerm isect light)
       (PhongSpec.litSpecularTerm isect ray light) = black.
Proof.
  intros H. unfold PhongSpec.diffuseTerm, PhongSpec.litSpecularTerm.
  destruct (Rlt_dec 0 _) as [L | _]; [lra |].
  rewrite (Rmax_left 0 _) by exact H.
  apply color_eq; simpl; ring.
Qed.

(** X12.  When every light is either in shadow or behind the surface
    ([dot normal lightDir <= 0]), [calculateLighting] returns the clamped
    ambient term alone; in particular for a scene without lights. *)
Theorem lighting_ambient_only (st : Settings) (isect : Intersection)
    (ray : Ray) (scene : Scene) :
  Forall (fun light =>
            inShadow st light (isect_point isect) scene = true \/
            dot (isect_normal isect) (lightDirAt light (isect_point isect))
            <= 0)
         (scene_lights scene) ->
  calculateLighting st isect ray scene
  = clampColor (ambientColor (isect_material isect)).
Proof.
  intros H. unfold calculateLighting. rewrite lighting_loop. f_equal.
  rewrite <- (cadd_black_r (ambientColor (isect_material isect))) at 2.
  f_equal.
  induction H as [| light rest Hl _ IH]; simpl; [reflexivity |].
  destruct (inShadow st light (isect_point isect) scene); simpl;
    [exact IH |].
  destruct Hl as [Hl | Hl]; [discriminate |].
  rewrite (backfacing_contribution isect ray light Hl), IH.
  apply color_eq; simpl; ring.
Qed.

Lemma lighting_ambient_only_witness :
  calculateLighting raytracingSettings backlit_hit backlit_ray backlit_scene
  = clampColor (ambientColor (isect_material backlit_hit)).
Proof.
  apply lighting_ambient_only.
  apply Forall_cons; [| apply Forall_nil]. right.
  unfold lightDirAt, dot; simpl. lra.
Defined.

(** X13.  With non-negative material and light values, [Scene.addLight] never
    lowers any channel of the colour [calculateLighting] returns. *)
Theorem addLight_not_darker (st : Settings) (isect : Intersection)
    (ray : Ray) (scene : Scene) (light : Light) :
  material_nonneg (isect_material isect) -> light_nonneg light ->
  color_le (calculateLighting st isect ray scene)
           (calculateLighting st isect ray (Scene_addLight light scene)).
Proof.
  intros Hm Hl. unfold calculateLighting. apply clampColor_mono.
  unfold Scene_addLight; cbn [scene_lights]. rewrite fold_left_app.
  cbn [fold_left].
  change (lightStep st isect ray
            (mkScene (scene_objects scene) (scene_lights scene ++ [light])))
    with (lightStep st isect ray scene).
  set (acc := fold_left (lightStep st isect ray scene) (scene_lights scene) _).
  unfold lightStep.
  destruct (inShadow st light (isect_point isect) scene);
    [apply color_le_refl |].
  rewrite addLight_terms.
  pose proof (contribution_nonneg isect ray light Hm Hl) as H.
  unfold color_le in *; simpl in *. lra.
Qed.

Lemma addLight_not_darker_witness :
  color_le
    (calculateLighting raytracingSettings backlit_hit backlit_ray Scene_new)
    (calculateLighting raytracingSettings backlit_hit backlit_ray
       (Scene_addLight
          (mkLight LPoint (mkVector3 0 0 5) (mkVector3 0 0 0)
                   (mkColor 1 1 1) 2.0)
          Scene_new)).
Proof.
  apply addLight_not_darker.
  - unfold material_nonneg; simpl. lra.
  - unfold light_nonneg; simpl. lra.
Defined.

(** ** Reflection *)

(** X14.  About a unit normal, [calculateReflection] keeps the length of the
    incident direction, reverses its component along the normal, and
    applied twice gives the incident direction back. *)
Theorem reflection_mirror (incident normal : Vector3) :
  dot normal normal = 1 ->
  dot (calculateReflection incident normal)
      (calculateReflection incident normal) = dot incident incident /\
  dot (calculateReflection incident normal) normal = - dot incident normal /\
  calculateReflection (calculateReflection incident normal) normal = incident.
Proof.
  intros Hn.
  assert (Hd : dot (calculateReflection incident normal) normal
               = - dot incident normal).
  { replace (dot (calculateReflection incident normal) normal)
      with (dot incident normal * (1 - 2 * dot normal normal))
      by (unfold calculateReflection, dot; simpl; ring).
    rewrite Hn. ring. }
  split.
  { replace (dot (calculateReflection incident normal)
                 (calculateReflection incident normal))
      with (dot incident incident
            + 4 * (dot incident normal * dot incident normal)
              * (dot normal normal - 1))
      by (unfold calculateReflection, dot; simpl; ring).
    rewrite Hn. ring. }
  split; [exact Hd |].
  unfold calculateReflection at 1. rewrite Hd.
  unfold calculateReflection. apply vector_eq; simpl; ring.
Qed.

(** The reflection test of the suite: (1,-1,0) off a floor gives (1,1,0). *)
Lemma reflection_mirror_witness :
  calculateReflection
    (calculateReflection (mkVector3 1 (-1) 0) (mkVector3 0 1 0))
    (mkVector3 0 1 0)
  = mkVector3 1 (-1) 0.
Proof.
  apply (proj2 (proj2 (reflection_mirror (mkVector3 1 (-1) 0)
                                         (mkVector3 0 1 0)
                                         ltac:(unfold dot; simpl; lra)))).
Defined.

(** ** More on refraction and Fresnel reflectance *)

Lemma cauchy_schwarz (a c : Vector3) :
  dot a c * dot a c <= dot a a * dot c c.
Proof.
  pose proof (dot_self_nonneg (cross a c)) as H.
  rewrite cross_norm in H. lra.
Qed.

Section Refracted.

Variables (incident normal : Vector3) (refrIndex : R).



End Refracted.




(** X16.  With a refractive index of 1 a unit ray passes undeflected, whichever
    side it comes from; only the ray that grazes the surface
    ([dot d n = 0]) has no refraction. *)
Theorem refraction_without_contrast (incident normal : Vector3) :
  dot incident incident = 1 ->
  (dot incident normal <> 0 ->
   calculateRefraction incident normal 1 = Some incident) /\
  (dot incident normal = 0 ->
   calculateRefraction incident normal 1 = None).
Proof.
  intros Hd.
  set (s := Refraction.side incident normal 1).
  assert (He : Refraction.eta s = 1).
  { unfold s, Refraction.side.
    destruct (Rlt_dec (dot incident normal) 0); unfold Refraction.eta; simpl;
      field. }
  assert (Hc : Refraction.cosi s = Rabs (dot incident normal)).
  { unfold s, Refraction.side.
    destruct (Rlt_dec (dot incident normal) 0) as [L | L]; simpl.
    - rewrite Rabs_left by exact L. reflexivity.
    - rewrite Rabs_right by lra. reflexivity. }
  assert (Hk : Refraction.discriminant s
               = Rabs (dot incident normal) * Rabs (dot incident normal)).
  { unfold Refraction.discriminant. rewrite He, Hc. ring. }
  unfold calculateRefraction. fold s. rewrite Hk, He, Hc.
  pose proof (Rabs_pos (dot incident normal)) as Hp.
  split; intros H.
  - assert (0 < Rabs (dot incident normal)) by (apply Rabs_pos_lt; exact H).
    destruct (Rle_dec _ 0) as [L | _]; [nra |].
    rewrite sqrt_square by exact Hp. f_equal.
    apply normalize_eq_unit; simpl; try ring. exact Hd.
  - rewrite H, Rabs_R0.
    destruct (Rle_dec (0 * 0) 0) as [_ | N]; [reflexivity | lra].
Qed.

Lemma refraction_without_contrast_witness :
  calculateRefraction (mkVector3 0 (-1) 0) (mkVector3 0 1 0) 1
  = Some (mkVector3 0 (-1) 0).
Proof.
  apply (proj1 (refraction_without_contrast (mkVector3 0 (-1) 0)
                  (mkVector3 0 1 0) ltac:(unfold dot; simpl; lra))).
  unfold dot; simpl. lra.
Defined.

(** X17.  A ray that enters ([dot d n < 0]) a medium of refractive index at
    least 1 always has a refracted direction: total internal reflection
    cannot occur on the way in. *)
Theorem refraction_entering_denser (incident normal : Vector3)
    (refrIndex : R) :
  1 <= refrIndex -> dot incident normal < 0 ->
  calculateRefraction incident normal refrIndex <> None.
Proof.
  intros Hn Hc. unfold calculateRefraction.
  rewrite (side_entering _ _ refrIndex Hc).
  unfold Refraction.discriminant, Refraction.eta; cbn.
  set (c := - dot incident normal).
  assert (Hpos : 0 < c) by (unfold c; lra).
  assert (He : 0 < 1 / refrIndex <= 1).
  { split.
    - apply Rdiv_lt_0_compat; lra.
    - apply Rmult_le_reg_r with refrIndex; [lra |].
      unfold Rdiv. rewrite Rmult_assoc, Rinv_l by lra. lra. }
  set (e := 1 / refrIndex) in *.
  destruct (Rle_dec (1 - e * e * (1 - c * c)) 0) as [L | _]; [| discriminate].
  exfalso.
  assert (e * e <= 1) by nra.
  destruct (Rle_dec (1 - c * c) 0); nra.
Qed.

Lemma refraction_entering_denser_witness :
  calculateRefraction (mkVector3 0 (-1) 0) (mkVector3 0 1 0) 1.5 <> None.
Proof.
  apply refraction_entering_denser.
  - lra.
  - unfold dot; simpl. lra.
Defined.

Lemma ratio_sqr_le_1 (x y : R) :
  0 <= x -> 0 < y -> 0 <= (x - y) / (x + y) * ((x - y) / (x + y)) <= 1.
Proof.
  intros Hx Hy.
  assert (Hp : 0 < / (x + y)) by (apply Rinv_0_lt_compat; lra).
  assert (H1 : (x - y) / (x + y) <= 1).
  { apply Rmult_le_reg_r with (x + y); [lra |].
    unfold Rdiv. rewrite Rmult_assoc, Rinv_l by lra. lra. }
  assert (H2 : -1 <= (x - y) / (x + y)).
  { apply Rmult_le_reg_r with (x + y); [lra |].
    unfold Rdiv. rewrite Rmult_assoc, Rinv_l by lra. lra. }
  set (q := (x - y) / (x + y)) in *. clearbody q. clear Hp. nra.
Qed.

Lemma fresnel_indices_pos (cosi refrIndex : R) :
  0 < refrIndex ->
  0 < Fresnel.etai cosi refrIndex /\ 0 < Fresnel.etat cosi refrIndex.
Proof.
  intros H. unfold Fresnel.etai, Fresnel.etat.
  destruct (Rlt_dec 0 cosi); split; lra.
Qed.

(** X18.  For a positive refractive index the value of
    [calculateFresnelReflection] is a reflectance: it lies in [0,1]. *)
Theorem fresnel_in_unit_interval (incident normal : Vector3) (refrIndex : R) :
  0 < refrIndex ->
  0 <= calculateFresnelReflection incident normal refrIndex <= 1.
Proof.
  intros Hn. unfold calculateFresnelReflection.
  set (cosi := dot incident normal).
  destruct (fresnel_indices_pos cosi refrIndex Hn) as [Hi Ht].
  set (etai := Fresnel.etai cosi refrIndex) in *.
  set (etat := Fresnel.etat cosi refrIndex) in *.
  assert (Hs : 0 <= Fresnel.sint cosi refrIndex).
  { unfold Fresnel.sint. fold etai etat.
    apply Rmult_le_pos; [| apply sqrt_pos].
    left. apply Rdiv_lt_0_compat; assumption. }
  destruct (Rle_dec 1 (Fresnel.sint cosi refrIndex)) as [| N]; [lra |].
  set (sint := Fresnel.sint cosi refrIndex) in *.
  assert (Hc : 0 < sqrt (Rmax 0 (1 - sint * sint))).
  { apply sqrt_lt_R0. rewrite Rmax_right by nra. nra. }
  set (cost := sqrt (Rmax 0 (1 - sint * sint))) in *.
  pose proof (Rabs_pos cosi) as Ha.
  assert (H1 := ratio_sqr_le_1 (etat * Rabs cosi) (etai * cost)
                  (Rmult_le_pos _ _ (Rlt_le _ _ Ht) Ha)
                  (Rmult_lt_0_compat _ _ Hi Hc)).
  assert (H2 := ratio_sqr_le_1 (etai * Rabs cosi) (etat * cost)
                  (Rmult_le_pos _ _ (Rlt_le _ _ Hi) Ha)
                  (Rmult_lt_0_compat _ _ Ht Hc)).
  lra.
Qed.

Lemma fresnel_in_unit_interval_witness :
  0 <= calculateFresnelReflection (mkVector3 1 (-1) 0) (mkVector3 0 1 0) 1.5
  <= 1.
Proof. apply fresnel_in_unit_interval. lra. Defined.

(** X19.  With a refractive index of 1 nothing is reflected: for unit vectors
    that are not perpendicular the Fresnel reflectance is 0. *)
Theorem fresnel_without_contrast (incident normal : Vector3) :
  dot incident incident = 1 -> dot normal normal = 1 ->
  dot incident normal <> 0 ->
  calculateFresnelReflection incident normal 1 = 0.
Proof.
  intros Hd Hn Hc.
  pose proof (cauchy_schwarz incident normal) as CS. rewrite Hd, Hn in CS.
  unfold calculateFresnelReflection.
  set (cosi := dot incident normal) in *.
  assert (Ei : Fresnel.etai cosi 1 = 1)
    by (unfold Fresnel.etai; destruct (Rlt_dec 0 cosi); reflexivity).
  assert (Et : Fresnel.etat cosi 1 = 1)
    by (unfold Fresnel.etat; destruct (Rlt_dec 0 cosi); reflexivity).
  assert (Hpos : 0 < cosi * cosi) by nra.
  assert (Es : Fresnel.sint cosi 1 = sqrt (1 - cosi * cosi)).
  { unfold Fresnel.sint. rewrite Ei, Et, Rmax_right by lra. field. }
  rewrite Es, Ei, Et.
  assert (Hlt : sqrt (1 - cosi * cosi) < 1).
  { rewrite <- sqrt_1 at 2. apply sqrt_lt_1_alt. lra. }
  destruct (Rle_dec 1 _) as [L | _]; [lra |].
  rewrite sqrt_sqrt by lra.
  replace (1 - (1 - cosi * cosi)) with (Rsqr cosi) by (unfold Rsqr; ring).
  rewrite Rmax_right by apply Rle_0_sqr.
  rewrite sqrt_Rsqr_abs.
  assert (0 < Rabs cosi) by (apply Rabs_pos_lt; exact Hc).
  field. lra.
Qed.

Lemma fresnel_without_contrast_witness :
  calculateFresnelReflection (mkVector3 0 (-1) 0) (mkVector3 0 1 0) 1 = 0.
Proof.
  apply fresnel_without_contrast; unfold dot; simpl; lra.
Defined.

(** ** More on the tracer *)

Lemma clampColor_idem (c : Color) : clampColor (clampColor c) = clampColor c.
Proof.
  unfold clampColor; simpl.
  rewrite !(clamp01_id (clamp01 _)) by apply clamp01_range. reflexivity.
Qed.


Lemma traceRay_in01 (st : Settings) (ray : Ray) (scene : Scene)
    (backgroundColor : Color) (depth : Z) :
  in01 backgroundColor -> in01 (traceRay st ray scene backgroundColor depth).
Proof.
  intros Hbg.
  destruct (Z_lt_le_dec MAX_DEPTH depth) as [Hd | Hd].
  - rewrite traceRay_capped by exact Hd. exact Hbg.
  - destruct (computeRayIntersection ray scene) as [i |] eqn:E.
    + destruct (traceRay_hit_clamped st ray scene backgroundColor depth Hd)
        as [c Ec]; [rewrite E; discriminate |].
      rewrite Ec. apply clampColor_in01.
    + rewrite traceRay_miss by exact E. exact Hbg.
Qed.

(** X20.  On a surface that neither reflects nor refracts (reflection not
    positive, and transparency not positive or refraction switched off),
    [traceRay] within the depth cap returns exactly what
    [calculateLighting] computes for the nearest hit. *)
Theorem traceRay_matte (st : Settings) (ray : Ray) (scene : Scene)
    (backgroundColor : Color) (depth : Z) (i : Intersection) :
  (depth <= MAX_DEPTH)%Z ->
  computeRayIntersection ray scene = Some i ->
  mat_reflection (isect_material i) <= 0 ->
  mat_transparency (isect_material i) <= 0 \/ enableRefraction st = false ->
  traceRay st ray scene backgroundColor depth
  = calculateLighting st i ray scene.
Proof.
  intros Hd Hi Hr Ht.
  pose proof (traceRay_equation st scene backgroundColor ray depth) as E.
  unfold traceRay_body in E.
  apply capped_false in Hd. rewrite Hd, Hi in E. unfold bind in E.
  destruct (Rlt_dec 0 (mat_reflection (isect_material i))); [lra |].
  assert (E' : Some (clampColor (calculateLighting st i ray scene))
               = Some (traceRay st ray scene backgroundColor depth)).
  { destruct (Rlt_dec 0 (mat_transparency (isect_material i))) as [L | _];
      [| exact E].
    destruct Ht as [Ht | Ht]; [lra |]. rewrite Ht in E. exact E. }
  injection E' as <-. unfold calculateLighting. apply clampColor_idem.
Qed.

Lemma traceRay_matte_witness :
  traceRay raytracingSettings scenario_ray
           (scenario_scene (Material_default (mkColor 1 0 0)))
           (mkColor 0.1 0.1 0.1) 0
  = calculateLighting raytracingSettings
      (SphereOps.hit (scenario_sphere (Material_default (mkColor 1 0 0)))
                     scenario_ray 4)
      scenario_ray (scenario_scene (Material_default (mkColor 1 0 0))).
Proof.
  apply traceRay_matte.
  - unfold MAX_DEPTH. lia.
  - apply scenario_nearest.
  - simpl. lra.
  - left. simpl. lra.
Defined.



Lemma plane_z1_unit (a c : R) :
  length (mkVector3 a c 1) <> 0 /\
  dot (normalize (mkVector3 a c 1)) (normalize (mkVector3 a c 1)) = 1 /\
  0 < vz (normalize (mkVector3 a c 1)).
Proof.
  assert (Hl : 0 < length (mkVector3 a c 1)).
  { unfold length. apply sqrt_lt_R0. unfold dot; simpl. nra. }
  split; [lra |]. split; [apply normalize_is_unit; lra |].
  unfold normalize. destruct (Req_dec_T _ 0); [lra |]. simpl.
  apply Rdiv_lt_0_compat; lra.
Qed.

(** X22.  [raytracePixel] shoots from the origin along a unit direction that
    points into the half space z > 0, whatever the pixel and the image
    size; for a scene without objects it returns the supplied background
    colour itself. *)
Theorem raytracePixel_primary (st : Settings) (x y width height : R)
    (scene : Scene) (backgroundColor : Color) :
  ray_origin (primaryRay x y width height) = mkVector3 0 0 0 /\
  dot (ray_direction (primaryRay x y width height))
      (ray_direction (primaryRay x y width height)) = 1 /\
  0 < vz (ray_direction (primaryRay x y width height)) /\
  (scene_objects scene = [] ->
   raytracePixel st x y width height scene backgroundColor
   = backgroundColor).
Proof.
  split; [reflexivity |].
  unfold primaryRay; cbn [ray_direction].
  split; [apply plane_z1_unit |]. split; [apply plane_z1_unit |].
  intros H. unfold raytracePixel. apply traceRay_miss.
  unfold computeRayIntersection. rewrite H. reflexivity.
Qed.

Lemma raytracePixel_primary_witness :
  raytracePixel raytracingSettings 400 300 800 600 Scene_new
                (mkColor 0.2 0.3 0.4)
  = mkColor 0.2 0.3 0.4.
Proof.
  apply (proj2 (proj2 (proj2
           (raytracePixel_primary raytracingSettings 400 300 800 600
              Scene_new (mkColor 0.2 0.3 0.4))))).
  reflexivity.
Defined.

(** ** More on the camera *)

Lemma triple_product (d u : Vector3) :
  cross (cross d u) d = subtract (scale u (dot d d)) (scale d (dot u d)).
Proof. apply vector_eq; unfold dot; simpl; ring. Qed.

Lemma triple_product_r (rt d : Vector3) :
  cross d (cross rt d) = subtract (scale rt (dot d d)) (scale d (dot d rt)).
Proof. apply vector_eq; unfold dot; simpl; ring. Qed.

(** A unit [right] orthogonal to a unit [direction] is the cross product
    of [direction] with the [up] derived from them. *)
Lemma right_handed (rt d : Vector3) :
  dot rt rt = 1 -> dot d d = 1 -> dot rt d = 0 ->
  rt = cross d (normalize (cross rt d)).
Proof.
  intros Hr Hd Ho.
  assert (U : dot (cross rt d) (cross rt d) = 1)
    by (rewrite cross_norm, Hr, Hd, Ho; ring).
  rewrite (normalize_unit _ U), triple_product_r, Hd, (dot_comm d rt), Ho.
  apply vector_eq; simpl; ring.
Qed.

(** X23.  The constructor builds an orthonormal basis with
    [right = direction x up], provided the camera does not look at its
    own position and the up guide is not parallel to the view direction. *)
Theorem Camera_new_orthonormal (position lookAt up : option Vector3)
    (fov aspectRatio : option R) :
  let c := Camera_new position lookAt up fov aspectRatio in
  orVector lookAt (mkVector3 0 0 (-1)) <> orVector position (mkVector3 0 0 0)
  ->
  cross (cam_direction c) (orVector up (mkVector3 0 1 0)) <> mkVector3 0 0 0
  ->
  orthonormal c /\
  cam_right c = cross (cam_direction c) (cam_up c) /\
  cam_position c = orVector position (mkVector3 0 0 0).
Proof.
  intros c Hlook Hup. subst c. unfold Camera_new in *.
  cbn [cam_direction cam_right cam_up cam_position] in *.
  set (p := orVector position _) in *. set (l := orVector lookAt _) in *.
  set (g := orVector up _) in *.
  set (d := normalize (subtract l p)) in *.
  assert (Hd : dot d d = 1).
  { apply normalize_is_unit. intros E. apply length_zero_iff in E.
    apply Hlook. apply vector_eq.
    - apply (f_equal vx) in E. simpl in E. lra.
    - apply (f_equal vy) in E. simpl in E. lra.
    - apply (f_equal vz) in E. simpl in E. lra. }
  set (rt := normalize (cross d g)).
  assert (Hr : dot rt rt = 1).
  { apply normalize_is_unit. intros E. apply Hup.
    apply length_zero_iff. exact E. }
  assert (Ho : dot rt d = 0)
    by (apply normalize_orthogonal; apply cross_orthogonal_l).
  destruct (completed_basis rt d Hr Hd Ho) as [H1 [H2 H3]].
  split; [unfold orthonormal; cbn; repeat split; assumption |].
  split; [apply right_handed; assumption | reflexivity].
Qed.

Lemma Camera_new_orthonormal_witness : orthonormal default_camera.
Proof.
  refine (proj1 (Camera_new_orthonormal None None None None None _ _)).
  - cbn. intros E. apply (f_equal vz) in E. simpl in E. lra.
  - change (cam_direction (Camera_new None None None None None))
      with (cam_direction default_camera).
    rewrite (proj1 default_camera_basis). cbn.
    intros E. apply (f_equal vx) in E. simpl in E. lra.
Defined.

Lemma generated_direction_sqr (c : Camera) (a e : R) :
  orthonormal c ->
  let v := mkVector3
             (vx (cam_right c) * a + vx (cam_up c) * e + vx (cam_direction c))
             (vy (cam_right c) * a + vy (cam_up c) * e + vy (cam_direction c))
             (vz (cam_right c) * a + vz (cam_up c) * e + vz (cam_direction c))
  in
  dot v v = a * a + e * e + 1 /\ dot v (cam_direction c) = 1.
Proof.
  intros [Hr [Hu [Hd [Hru [Hrd Hud]]]]] v. split.
  - replace (dot v v)
      with (a * a * dot (cam_right c) (cam_right c)
            + e * e * dot (cam_up c) (cam_up c)
            + dot (cam_direction c) (cam_direction c)
            + 2 * a * e * dot (cam_right c) (cam_up c)
            + 2 * a * dot (cam_right c) (cam_direction c)
            + 2 * e * dot (cam_up c) (cam_direction c))
      by (unfold v, dot; simpl; ring).
    rewrite Hr, Hu, Hd, Hru, Hrd, Hud. ring.
  - replace (dot v (cam_direction c))
      with (a * dot (cam_right c) (cam_direction c)
            + e * dot (cam_up c) (cam_direction c)
            + dot (cam_direction c) (cam_direction c))
      by (unfold v, dot; simpl; ring).
    rewrite Hd, Hrd, Hud. ring.
Qed.

Lemma normalize_dot (v w : Vector3) :
  length v <> 0 -> dot (normalize v) w = dot v w / length v.
Proof.
  intros N. unfold normalize.
  destruct (Req_dec_T (length v) 0); [contradiction |].
  unfold dot; simpl. field. exact N.
Qed.

(** X24.  For a camera with an orthonormal basis, [generateRay] starts at the
    camera position, has a unit direction that points forward
    ([dot] with the view direction positive), and through the centre of
    the image it runs along the view direction, whatever the field of
    view. *)
Theorem generateRay_forward (c : Camera) (x y width height : R) :
  orthonormal c ->
  ray_origin (generateRay c x y width height) = cam_position c /\
  dot (ray_direction (generateRay c x y width height))
      (ray_direction (generateRay c x y width height)) = 1 /\
  0 < dot (ray_direction (generateRay c x y width height)) (cam_direction c)
  /\
  (width <> 0 -> height <> 0 ->
   ray_direction (generateRay c (width / 2) (height / 2) width height)
   = cam_direction c).
Proof.
  intros Ho. split; [reflexivity |].
  unfold generateRay; cbn [ray_direction].
  set (hh := tan (cam_fovRadians c / 2)).
  assert (G : forall a e,
            let v := mkVector3
              (vx (cam_right c) * a + vx (cam_up c) * e + vx (cam_direction c))
              (vy (cam_right c) * a + vy (cam_up c) * e + vy (cam_direction c))
              (vz (cam_right c) * a + vz (cam_up c) * e + vz (cam_direction c))
            in dot (normalize v) (normalize v) = 1 /\
               0 < dot (normalize v) (cam_direction c)).
  { intros a e v.
    destruct (generated_direction_sqr c a e Ho) as [Hv Hvd]. fold v in Hv, Hvd.
    assert (Hl : 0 < length v).
    { unfold length. apply sqrt_lt_R0. rewrite Hv. nra. }
    split; [apply normalize_is_unit; lra |].
    rewrite normalize_dot by lra. rewrite Hvd.
    apply Rdiv_lt_0_compat; lra. }
  split; [apply G |]. split; [apply G |].
  intros Hw Hh. destruct Ho as [_ [_ [Hd _]]].
  apply normalize_eq_unit; [| | | exact Hd]; simpl; field; auto.
Qed.

Lemma generateRay_forward_witness :
  ray_direction (generateRay default_camera (800 / 2) (600 / 2) 800 600)
  = cam_direction default_camera.
Proof.
  assert (O : orthonormal default_camera).
  { destruct default_camera_basis as [D [Rt U]].
    unfold orthonormal. rewrite D, Rt, U.
    unfold dot; simpl. repeat split; lra. }
  apply (proj2 (proj2 (proj2
           (generateRay_forward default_camera 0 0 800 600 O)))); lra.
Defined.

Lemma camera_eq (c1 c2 : Camera) :
  cam_position c1 = cam_position c2 ->
  cam_direction c1 = cam_direction c2 ->
  cam_right c1 = cam_right c2 ->
  cam_up c1 = cam_up c2 ->
  cam_fov c1 = cam_fov c2 ->
  cam_aspectRatio c1 = cam_aspectRatio c2 ->
  cam_fovRadians c1 = cam_fovRadians c2 ->
  c1 = c2.
Proof. destruct c1, c2; simpl; intros; subst; reflexivity. Qed.

Lemma inv_sqrt2_pos : 0 < 1 / sqrt 2.
Proof. apply Rdiv_lt_0_compat; [lra | apply sqrt_lt_R0; lra]. Qed.

Lemma default_camera_orthonormal : orthonormal default_camera.
Proof.
  destruct default_camera_basis as [D [Rt U]].
  unfold orthonormal. rewrite D, Rt, U.
  unfold dot; simpl. repeat split; lra.
Qed.

Lemma pan_orthonormal_witness : orthonormal (pan 45 default_camera).
Proof.
  apply pan_orthonormal.
  - rewrite (proj1 default_camera_basis). unfold dot; simpl. lra.
  - rewrite (proj1 panned_basis), (proj2 (proj2 default_camera_basis)).
    intros E. apply length_zero_iff in E.
    apply (f_equal vx) in E. simpl in E.
    pose proof inv_sqrt2_pos. lra.
Defined.

Lemma tilt_orthonormal_witness :
  orthonormal (tilt 90 default_camera) <->
  dot (cam_right default_camera) (cam_direction (tilt 90 default_camera)) = 0.
Proof.
  apply tilt_orthonormal. apply default_camera_orthonormal.
Defined.

(** X28.  A rotation by 0 degrees changes nothing on a camera whose basis is
    orthonormal with [right = direction x up] (as the constructor builds
    it). *)
Theorem rotation_by_zero (c : Camera) :
  orthonormal c -> cam_right c = cross (cam_direction c) (cam_up c) ->
  pan 0 c = c /\ tilt 0 c = c.
Proof.
  intros [Hr [Hu [Hd [Hru [Hrd Hud]]]]] Hh.
  assert (Eu : cross (cam_right c) (cam_direction c) = cam_up c).
  { rewrite Hh, triple_product, Hd, Hud. apply vector_eq; simpl; ring. }
  assert (Z1 : - 0 * PI / 180 = 0) by lra.
  assert (Z2 : 0 * PI / 180 = 0) by lra.
  assert (Ed : forall v, vx v = vx (cam_direction c) ->
                         vy v = vy (cam_direction c) ->
                         vz v = vz (cam_direction c) ->
                         normalize v = cam_direction c)
    by (intros v Hx Hy Hz; apply normalize_eq_unit; assumption).
  split.
  - unfold pan. rewrite Z1, cos_0, sin_0.
    rewrite (Ed (mkVector3 _ _ _)) by (simpl; ring).
    rewrite <- Hh, (normalize_unit _ Hr), Eu, (normalize_unit _ Hu).
    destruct c; reflexivity.
  - unfold tilt. rewrite Z2, cos_0, sin_0.
    rewrite (Ed (mkVector3 _ _ _)) by (simpl; ring).
    rewrite Eu, (normalize_unit _ Hu).
    destruct c; reflexivity.
Qed.

Lemma default_camera_right_handed :
  cam_right default_camera
  = cross (cam_direction default_camera) (cam_up default_camera).
Proof.
  destruct default_camera_basis as [D [Rt U]]. rewrite D, Rt, U.
  apply vector_eq; simpl; ring.
Qed.

Lemma rotation_by_zero_witness :
  pan 0 default_camera = default_camera /\
  tilt 0 default_camera = default_camera.
Proof.
  apply rotation_by_zero.
  - apply default_camera_orthonormal.
  - apply default_camera_right_handed.
Defined.

Lemma full_turn_less (t : R) : cos (t - 2 * PI) = cos t /\ sin (t - 2 * PI) = sin t.
Proof.
  rewrite cos_minus, sin_minus, cos_2PI, sin_2PI. split; ring.
Qed.

Lemma full_turn_more (t : R) : cos (t + 2 * PI) = cos t /\ sin (t + 2 * PI) = sin t.
Proof.
  rewrite cos_plus, sin_plus, cos_2PI, sin_2PI. split; ring.
Qed.

(** X29.  [pan] and [tilt] depend on the angle only up to full turns: 360
    degrees more give the same camera. *)
Theorem rotation_full_turn (degrees : R) (c : Camera) :
  pan (degrees + 360) c = pan degrees c /\
  tilt (degrees + 360) c = tilt degrees c.
Proof.
  split.
  - unfold pan.
    replace (- (degrees + 360) * PI / 180)
      with (- degrees * PI / 180 - 2 * PI) by field.
    destruct (full_turn_less (- degrees * PI / 180)) as [-> ->].
    reflexivity.
  - unfold tilt.
    replace ((degrees + 360) * PI / 180)
      with (degrees * PI / 180 + 2 * PI) by field.
    destruct (full_turn_more (degrees * PI / 180)) as [-> ->].
    reflexivity.
Qed.

(** ** The frame buffer *)

Lemma store_length (img : list Z) : forall index v,
  List.length (store img index v) = List.length img.
Proof.
  induction img as [| a img IH]; intros [| i] v; simpl; try reflexivity.
  rewrite IH. reflexivity.
Qed.

Lemma store_app (prefix l : list Z) (k : nat) (v : Z) :
  store (prefix ++ l) (List.length prefix + k) v = prefix ++ store l k v.
Proof.
  induction prefix as [| a prefix IH]; simpl; [reflexivity |].
  rewrite IH. reflexivity.
Qed.

Lemma writePixel_at (prefix rest : list Z) (a1 a2 a3 a4 : Z) (index : nat)
    (color : Color) :
  index = List.length prefix ->
  writePixel (prefix ++ a1 :: a2 :: a3 :: a4 :: rest) index color
  = prefix ++ map Uint8Clamp (pixelBytes color) ++ rest.
Proof.
  intros ->. unfold writePixel. rewrite !store_app. reflexivity.
Qed.

(** The inner loop fills one row of zeros behind [prefix], pixel by
    pixel. *)
Lemma fill_row (idx : nat -> nat) (col : nat -> Color) :
  forall n start prefix rest,
    (forall j, (j < n)%nat ->
               idx (start + j)%nat = (List.length prefix + 4 * j)%nat) ->
    fold_left (fun img x => writePixel img (idx x) (col x)) (seq start n)
              (prefix ++ repeat 0%Z (4 * n) ++ rest)
    = prefix
      ++ concat (map (fun x => map Uint8Clamp (pixelBytes (col x)))
                     (seq start n))
      ++ rest.
Proof.
  induction n as [| n IH]; intros start prefix rest H.
  - reflexivity.
  - replace (4 * S n)%nat with (4 + 4 * n)%nat by lia.
    cbn [seq fold_left Nat.add repeat app].
    rewrite writePixel_at
      by (rewrite <- (Nat.add_0_r start), H by lia; lia).
    cbn [map concat].
    set (B := map Uint8Clamp (pixelBytes (col start))).
    rewrite <- (app_assoc B _ rest), !(app_assoc prefix B).
    apply IH. intros j Hj.
    rewrite length_app. unfold B. rewrite length_map.
    cbn [pixelBytes List.length].
    replace (S start + j)%nat with (start + S j)%nat by lia.
    rewrite H by lia. lia.
Qed.

Lemma row_bytes_length (col : nat -> Color) (w start : nat) :
  List.length
    (concat (map (fun x => map Uint8Clamp (pixelBytes (col x))) (seq start w)))
  = (4 * w)%nat.
Proof.
  revert start. induction w as [| w IH]; intros start; [reflexivity |].
  cbn [seq map concat]. rewrite length_app, IH, length_map.
  cbn [pixelBytes List.length]. lia.
Qed.

(** The outer loop fills the rows in order. *)
Lemma fill_rows (w : nat) (col : nat -> nat -> Color) :
  forall n ystart prefix,
    List.length prefix = (ystart * w * 4)%nat ->
    fold_left
      (fun img y =>
         fold_left
           (fun img x => writePixel img ((y * w + x) * 4)%nat (col x y))
           (seq 0 w) img)
      (seq ystart n) (prefix ++ repeat 0%Z (n * w * 4))
    = prefix
      ++ concat
           (map (fun y =>
                   concat (map (fun x => map Uint8Clamp (pixelBytes (col x y)))
                               (seq 0 w)))
                (seq ystart n)).
Proof.
  induction n as [| n IH]; intros ystart prefix H.
  - reflexivity.
  - replace (S n * w * 4)%nat with (4 * w + n * w * 4)%nat by lia.
    rewrite repeat_app. cbn [seq fold_left map concat].
    rewrite (fill_row (fun x => ((ystart * w + x) * 4)%nat)
                      (fun x => col x ystart) w 0 prefix
                      (repeat 0%Z (n * w * 4)))
      by (intros j _; lia).
    rewrite !app_assoc. apply IH.
    rewrite length_app, row_bytes_length. lia.
Qed.

Lemma byte_of_channel (v : R) :
  0 <= v <= 1 ->
  (0 <= Zfloor (v * 255) <= 255)%Z /\
  Uint8Clamp (Zfloor (v * 255)) = Zfloor (v * 255).
Proof.
  intros H.
  assert (B : (0 <= Zfloor (v * 255) <= 255)%Z).
  { split.
    - apply Zfloor_lub. simpl. lra.
    - apply le_IZR. pose proof (Zfloor_bound (v * 255)). lra. }
  split; [exact B |]. unfold Uint8Clamp. lia.
Qed.

Lemma pixelBytes_clamped (c : Color) :
  in01 c ->
  map Uint8Clamp (pixelBytes c) = pixelBytes c /\
  Forall (fun v => (0 <= v <= 255)%Z) (pixelBytes c).
Proof.
  intros [Hr [Hg Hb]].
  destruct (byte_of_channel _ Hr) as [Br Er].
  destruct (byte_of_channel _ Hg) as [Bg Eg].
  destruct (byte_of_channel _ Hb) as [Bb Eb].
  unfold pixelBytes. cbn [map]. rewrite Er, Eg, Eb. split; [reflexivity |].
  repeat constructor; lia.
Qed.

(** In a concatenation of blocks of equal length, block [i] starts at
    offset [i * n]. *)
Lemma block_at (n : nat) (blocks : list (list Z)) :
  Forall (fun blk => List.length blk = n) blocks ->
  forall i, (i < List.length blocks)%nat ->
    firstn n (skipn (i * n) (concat blocks)) = nth i blocks [].
Proof.
  induction 1 as [| blk blocks Hb _ IH]; intros i Hi; simpl in Hi; [lia |].
  destruct i as [| i]; cbn [concat nth].
  - cbn [Nat.mul skipn]. rewrite firstn_app, Hb, Nat.sub_diag.
    rewrite firstn_all2 by lia. cbn [firstn]. apply app_nil_r.
  - rewrite skipn_app, Hb, skipn_all2 by lia.
    replace (S i * n - n)%nat with (i * n)%nat by lia.
    cbn [app]. apply IH. lia.
Qed.

Lemma concat_blocks_length (n : nat) (blocks : list (list Z)) :
  Forall (fun blk => List.length blk = n) blocks ->
  List.length (concat blocks) = (List.length blocks * n)%nat.
Proof.
  induction 1 as [| blk blocks Hb _ IH]; [reflexivity |].
  cbn [concat List.length]. rewrite length_app, Hb, IH. lia.
Qed.

Lemma window_in_prefix (a b c : nat) (l : list Z) :
  (b + a <= c)%nat ->
  firstn a (skipn b l) = firstn a (skipn b (firstn c l)).
Proof.
  intros H. rewrite !firstn_skipn_comm, firstn_firstn.
  rewrite Nat.min_l by lia. reflexivity.
Qed.


Section FrameBuffer.

Variables (w h : nat) (px : nat -> nat -> list Z).
Hypothesis px_length : forall x y, List.length (px x y) = 4%nat.

Lemma row_length (y : nat) : List.length (rowOf w px y) = (w * 4)%nat.
Proof.
  unfold rowOf. rewrite (concat_blocks_length 4).
  - rewrite length_map, length_seq. reflexivity.
  - apply Forall_forall. intros blk Hin. apply in_map_iff in Hin.
    destruct Hin as [x [<- _]]. apply px_length.
Qed.

Lemma rows_uniform :
  Forall (fun blk => List.length blk = (w * 4)%nat)
         (map (rowOf w px) (seq 0 h)).
Proof.
  apply Forall_forall. intros blk Hin. apply in_map_iff in Hin.
  destruct Hin as [y [<- _]]. apply row_length.
Qed.

Lemma image_length : List.length (imageOf w h px) = (w * h * 4)%nat.
Proof.
  unfold imageOf. rewrite (concat_blocks_length (w * 4) _ rows_uniform).
  rewrite length_map, length_seq. lia.
Qed.

Lemma image_pixel (x y : nat) :
  (x < w)%nat -> (y < h)%nat ->
  firstn 4 (skipn ((y * w + x) * 4) (imageOf w h px)) = px x y.
Proof.
  intros Hx Hy.
  replace ((y * w + x) * 4)%nat with (x * 4 + y * (w * 4))%nat by lia.
  rewrite <- skipn_skipn.
  rewrite (window_in_prefix 4 (x * 4) (w * 4)) by lia.
  unfold imageOf.
  rewrite (block_at (w * 4) _ rows_uniform)
    by (rewrite length_map, length_seq; exact Hy).
  rewrite (nth_indep _ [] (rowOf w px 0))
    by (rewrite length_map, length_seq; exact Hy).
  rewrite map_nth, seq_nth by exact Hy. cbn [Nat.add].
  unfold rowOf.
  rewrite (block_at 4).
  - rewrite (nth_indep _ [] (px 0%nat y))
      by (rewrite length_map, length_seq; exact Hx).
    rewrite (map_nth (fun x0 => px x0 y)), seq_nth by exact Hx. reflexivity.
  - apply Forall_forall. intros blk Hin. apply in_map_iff in Hin.
    destruct Hin as [x0 [<- _]]. apply px_length.
  - rewrite length_map, length_seq. exact Hx.
Qed.

Lemma image_forall (P : Z -> Prop) :
  (forall x y, Forall P (px x y)) -> Forall P (imageOf w h px).
Proof.
  intros H. unfold imageOf, rowOf.
  apply Forall_concat. apply Forall_forall. intros blk Hin.
  apply in_map_iff in Hin. destruct Hin as [y [<- _]].
  apply Forall_concat. apply Forall_forall. intros blk Hin.
  apply in_map_iff in Hin. destruct Hin as [x [<- _]]. apply H.
Qed.

End FrameBuffer.

Lemma renderRaytrace_image_value (st : Settings) (camera : Camera)
    (scene : Scene) (width height : nat) :
  scene_objects scene <> [] ->
  renderRaytrace_image st camera scene width height
  = Some (imageOf width height
            (fun x y =>
               pixelBytes (pixelColor st camera scene width height x y))).
Proof.
  intros H. unfold renderRaytrace_image.
  destruct (scene_objects scene) as [| o objects]; [contradiction |].
  f_equal. cbv zeta.
  replace (width * height * 4)%nat with (height * width * 4)%nat by lia.
  pose proof (fill_rows width
                (fun x y => pixelColor st camera scene width height x y)
                height 0 [] eq_refl) as F.
  cbn [app] in F. rewrite F.
  unfold imageOf, rowOf. f_equal.
  apply map_ext. intros y. f_equal. apply map_ext. intros x.
  apply pixelBytes_clamped. unfold pixelColor. apply traceRay_in01.
  unfold in01; simpl. lra.
Qed.

(** X30.  [renderRaytrace] produces no image for a scene without objects.
    Otherwise the buffer it fills has [width * height * 4] entries, each
    between 0 and 255, and the four entries from offset
    [(y * width + x) * 4] are the floor of 255 times the red, green and
    blue channel traced for pixel (x, y), followed by 255. *)
Theorem renderRaytrace_framebuffer (st : Settings) (camera : Camera)
    (scene : Scene) (width height : nat) :
  (scene_objects scene = [] ->
   renderRaytrace_image st camera scene width height = None) /\
  (scene_objects scene <> [] ->
   exists imageData,
     renderRaytrace_image st camera scene width height = Some imageData /\
     List.length imageData = (width * height * 4)%nat /\
     Forall (fun v => (0 <= v <= 255)%Z) imageData /\
     forall x y, (x < width)%nat -> (y < height)%nat ->
       firstn 4 (skipn ((y * width + x) * 4) imageData)
       = pixelBytes (pixelColor st camera scene width height x y)).
Proof.
  split.
  - intros H. unfold renderRaytrace_image. rewrite H. reflexivity.
  - intros H. eexists. split; [apply renderRaytrace_image_value; exact H |].
    split; [apply image_length; reflexivity |].
    split.
    + apply image_forall. intros x y. apply pixelBytes_clamped.
      unfold pixelColor. apply traceRay_in01. unfold in01; simpl. lra.
    + intros x y Hx Hy. apply image_pixel; [reflexivity | exact Hx | exact Hy].
Qed.



(** ** The guard and the zero direction *)

Lemma zero_direction_coefficients (s : Sphere) (ray : Ray) :
  ray_direction ray = mkVector3 0 0 0 ->
  SphereOps.qa ray = 0 /\ SphereOps.qb s ray = 0 /\
  SphereOps.discriminant s ray = 0.
Proof.
  intros H.
  assert (Ea : SphereOps.qa ray = 0)
    by (unfold SphereOps.qa, dot; rewrite H; simpl; ring).
  assert (Eb : SphereOps.qb s ray = 0)
    by (unfold SphereOps.qb, dot; rewrite H; simpl; lra).
  split; [exact Ea |]. split; [exact Eb |].
  unfold SphereOps.discriminant. rewrite Ea, Eb. ring.
Qed.

(** With a zero direction the source's [t] is 0/0. *)
Lemma returned_distance_degenerate (s : Sphere) (ray : Ray) :
  ray_direction ray = mkVector3 0 0 0 ->
  Sphere_returned_distance s ray = Some NaN.
Proof.
  intros H.
  destruct (zero_direction_coefficients s ray H) as [Ea [Eb Ed]].
  unfold Sphere_returned_distance. rewrite Ea, Eb, Ed, sqrt_0.
  destruct (Rlt_dec 0 0) as [F | _]; [lra |].
  unfold Num_div.
  destruct (Req_dec_T (2.0 * 0) 0) as [_ | N]; [| exfalso; lra].
  destruct (Req_dec_T (- 0 - 0) 0) as [_ | N]; [| exfalso; lra].
  reflexivity.
Qed.

(** With any other direction both divisions are ordinary, and the
    distance is the one of the real-valued [SphereOps.intersect]. *)
Lemma returned_distance_regular (s : Sphere) (ray : Ray) :
  ray_direction ray <> mkVector3 0 0 0 ->
  Sphere_returned_distance s ray
  = option_map (fun i => Finite (isect_distance i))
               (SphereOps.intersect s ray).
Proof.
  intros H.
  assert (Ha : 2.0 * SphereOps.qa ray <> 0).
  { intros E. apply H. apply qa_zero_iff. lra. }
  unfold Sphere_returned_distance, SphereOps.intersect, SphereOps.root1,
    SphereOps.root2, Num_div.
  destruct (Rlt_dec (SphereOps.discriminant s ray) 0); [reflexivity |].
  destruct (Req_dec_T (2.0 * SphereOps.qa ray) 0); [contradiction |].
  cbn [Num_lt].
  destruct (Rlt_dec _ 0.001); [| reflexivity].
  destruct (Rlt_dec _ 0.001); reflexivity.
Qed.

Lemma plane_zero_direction (p : Plane) (ray : Ray) :
  ray_direction ray = mkVector3 0 0 0 -> PlaneOps.intersect p ray = None.
Proof.
  intros H. apply plane_reject. left.
  unfold PlaneOps.denom, dot. rewrite H; simpl.
  replace (0 * vx (plane_normal p) + 0 * vy (plane_normal p)
           + 0 * vz (plane_normal p)) with 0 by ring.
  rewrite Rabs_R0. lra.
Qed.

(** The shadow ray towards a point light that sits on the hit point has
    the zero direction. *)
Lemma shadow_ray_at_light (light : Light) (pt : Vector3) :
  light_type light = LPoint -> light_position light = pt ->
  lightDirAt light pt = mkVector3 0 0 0.
Proof.
  intros Ht Hp. unfold lightDirAt. rewrite Ht, Hp.
  replace (subtract pt pt) with (mkVector3 0 0 0)
    by (apply vector_eq; simpl; ring).
  apply normalize_zero.
Qed.

(** C10.  A hit reported by [Plane.intersect], and a hit reported by
    [Sphere.intersect] for a ray whose direction is not the zero vector,
    is at distance at least 0.001, hence strictly positive; so is every
    hit reported by [computeRayIntersection], and so is the blocker that
    the shadow test of [calculateLighting] finds along the shadow ray it
    casts from the hit point itself.  For a ray with the zero direction
    (the shadow ray towards a point light that sits on the hit point is
    one) [Plane.intersect] reports nothing, while the distance of what
    [Sphere.intersect] returns is NaN, which is not at least 0.001. *)
Theorem hits_respect_guard :
  (forall p ray i,
     PlaneOps.intersect p ray = Some i ->
     0.001 <= isect_distance i /\ 0 < isect_distance i) /\
  (forall s ray i,
     ray_direction ray <> mkVector3 0 0 0 ->
     SphereOps.intersect s ray = Some i ->
     0.001 <= isect_distance i /\ 0 < isect_distance i /\
     Sphere_returned_distance s ray = Some (Finite (isect_distance i))) /\
  (forall ray scene i,
     computeRayIntersection ray scene = Some i ->
     0.001 <= isect_distance i /\ 0 < isect_distance i) /\
  (forall st light pt scene,
     inShadow st light pt scene = true ->
     exists blocker,
       computeRayIntersection (mkRay pt (lightDirAt light pt)) scene
         = Some blocker /\
       0.001 <= isect_distance blocker) /\
  (forall s ray,
     ray_direction ray = mkVector3 0 0 0 ->
     Sphere_returned_distance s ray = Some NaN /\
     Num_ge NaN 0.001 = false) /\
  (forall p ray,
     ray_direction ray = mkVector3 0 0 0 -> PlaneOps.intersect p ray = None) /\
  (forall light pt,
     light_type light = LPoint -> light_position light = pt ->
     ray_direction (mkRay pt (lightDirAt light pt)) = mkVector3 0 0 0).
Proof.
  split; [| split; [| split; [| split; [| split; [| split]]]]].
  - intros p ray i H.
    pose proof (plane_distance_guard p ray i H). split; lra.
  - intros s ray i Hd H.
    pose proof (sphere_distance_guard s ray i H).
    split; [lra |]. split; [lra |].
    rewrite (returned_distance_regular s ray Hd), H. reflexivity.
  - intros ray scene i H.
    pose proof (computeRayIntersection_guard ray scene i H). split; lra.
  - intros st light pt scene H. unfold inShadow in H.
    destruct (enableShadows st); [| discriminate].
    destruct (computeRayIntersection (mkRay pt (lightDirAt light pt)) scene)
      as [blocker |] eqn:E; [| discriminate].
    exists blocker. split; [reflexivity |].
    eapply computeRayIntersection_guard. exact E.
  - intros s ray H. split; [apply returned_distance_degenerate; exact H |].
    reflexivity.
  - apply plane_zero_direction.
  - intros light pt Ht Hp. cbn [ray_direction].
    apply shadow_ray_at_light; assumption.
Qed.

(** The shadow ray towards a point light placed on the hit point
    (0,0,4) of the scenario sphere. *)
Lemma hits_respect_guard_witness :
  Sphere_returned_distance
    (scenario_sphere (Material_default (mkColor 1 0 0)))
    (mkRay (mkVector3 0 0 4)
           (lightDirAt (mkLight LPoint (mkVector3 0 0 4) (mkVector3 0 0 0)
                                (mkColor 1 1 1) 1)
                       (mkVector3 0 0 4)))
  = Some NaN.
Proof.
  apply (proj1 (proj1 (proj2 (proj2 (proj2 (proj2 hits_respect_guard))))
                  (scenario_sphere (Material_default (mkColor 1 0 0)))
                  (mkRay (mkVector3 0 0 4)
                     (lightDirAt
                        (mkLight LPoint (mkVector3 0 0 4) (mkVector3 0 0 0)
                                 (mkColor 1 1 1) 1)
                        (mkVector3 0 0 4)))
                  (proj2 (proj2 (proj2 (proj2 (proj2 (proj2
                     hits_respect_guard)))))
                     (mkLight LPoint (mkVector3 0 0 4) (mkVector3 0 0 0)
                              (mkColor 1 1 1) 1)
                     (mkVector3 0 0 4) eq_refl eq_refl))).
Defined.

(** ** Colour ranges *)




(** ** Shadows at a partly occluded point *)

Lemma overhead_shadow_ray :
  mkRay (mkVector3 0 0 0) (lightDirAt overhead_light (mkVector3 0 0 0))
  = scenario_ray.
Proof.
  unfold scenario_ray, lightDirAt, overhead_light; cbn. f_equal.
  apply vector_eq; simpl; lra.
Qed.

Lemma grazing_shadow_ray_misses :
  computeRayIntersection
    (mkRay (mkVector3 0 0 0) (lightDirAt grazing_light (mkVector3 0 0 0)))
    occluded_scene = None.
Proof.
  unfold computeRayIntersection, occluded_scene; cbn [scene_objects fold_left].
  unfold nearer, intersect.
  destruct (intersect_cases (axis_sphere 5 (Material_default (mkColor 1 1 1)))
              (mkRay (mkVector3 0 0 0)
                     (lightDirAt grazing_light (mkVector3 0 0 0))))
    as [[_ E] | [[D _] | [[D _] | [D _]]]].
  - rewrite E. reflexivity.
  - exfalso. revert D.
    unfold SphereOps.discriminant, SphereOps.qb, SphereOps.qa, SphereOps.qc,
      SphereOps.oc, dot, lightDirAt, grazing_light; simpl. lra.
  - exfalso. revert D.
    unfold SphereOps.discriminant, SphereOps.qb, SphereOps.qa, SphereOps.qc,
      SphereOps.oc, dot, lightDirAt, grazing_light; simpl. lra.
  - exfalso. revert D.
    unfold SphereOps.discriminant, SphereOps.qb, SphereOps.qa, SphereOps.qc,
      SphereOps.oc, dot, lightDirAt, grazing_light; simpl. lra.
Qed.

(** With shadows enabled the overhead light is blocked at the origin and
    the grazing light is not. *)
Lemma occluded_shadows (st : Settings) (c : Color) :
  inShadow (set_enableShadows true st) overhead_light
           (isect_point (occluded_hit c)) occluded_scene = true /\
  inShadow (set_enableShadows true st) grazing_light
           (isect_point (occluded_hit c)) occluded_scene = false.
Proof.
  unfold inShadow; cbn [set_enableShadows enableShadows occluded_hit
                         isect_point].
  split.
  - rewrite overhead_shadow_ray.
    change (computeRayIntersection scenario_ray occluded_scene)
      with (computeRayIntersection scenario_ray
              (scenario_scene (Material_default (mkColor 1 1 1)))).
    rewrite scenario_nearest. reflexivity.
  - rewrite grazing_shadow_ray_misses. reflexivity.
Qed.

(** What each of the two lights adds to the red channel at the occluded
    point. *)
Lemma occluded_contributions (c : Color) :
  r (cadd (PhongSpec.diffuseTerm (occluded_hit c) grazing_light)
          (PhongSpec.litSpecularTerm (occluded_hit c) occluded_ray
                                     grazing_light))
  = r c * 0.28 + 0.5 /\
  r (cadd (PhongSpec.diffuseTerm (occluded_hit c) overhead_light)
          (PhongSpec.litSpecularTerm (occluded_hit c) occluded_ray
                                     overhead_light))
  = r c + 0.5.
Proof.
  unfold PhongSpec.diffuseTerm, PhongSpec.litSpecularTerm,
    PhongSpec.specularTerm, PhongSpec.attenuatedIntensity, Math_pow.
  cbn [occluded_hit isect_material isect_point isect_normal mat_shininess
       mat_diffuse mat_specular mat_color grazing_light overhead_light
       light_type light_color light_intensity].
  destruct (Req_dec_T 0 0) as [_ | N]; [| exfalso; apply N; reflexivity].
  split.
  - assert (E : dot (mkVector3 0 0 1)
                    (lightDirAt grazing_light (mkVector3 0 0 0)) = 0.28)
      by (unfold lightDirAt, grazing_light, dot; simpl; lra).
    rewrite E.
    destruct (Rlt_dec 0 0.28) as [_ | N]; [| exfalso; lra].
    rewrite (Rmax_right 0 0.28) by lra. simpl. lra.
  - assert (E : dot (mkVector3 0 0 1)
                    (lightDirAt overhead_light (mkVector3 0 0 0)) = 1)
      by (unfold lightDirAt, overhead_light, dot; simpl; lra).
    rewrite E.
    destruct (Rlt_dec 0 1) as [_ | N]; [| exfalso; lra].
    rewrite (Rmax_right 0 1) by lra. simpl. lra.
Qed.

Lemma occluded_lighting_r (st : Settings) (c : Color) :
  r (calculateLighting (set_enableShadows true st) (occluded_hit c)
                       occluded_ray occluded_scene)
  = clamp01 (r c * 0.1 + (r c * 0.28 + 0.5)) /\
  r (calculateLighting (set_enableShadows false st) (occluded_hit c)
                       occluded_ray occluded_scene)
  = clamp01 (r c * 0.1 + (r c * 0.28 + 0.5) + (r c + 0.5)).
Proof.
  destruct (occluded_shadows st c) as [So Sg].
  destruct (occluded_contributions c) as [Cg Co].
  unfold calculateLighting. rewrite !lighting_loop.
  cbn [occluded_scene scene_lights filter].
  rewrite So, Sg. cbn [negb map sumColors fold_right].
  cbn [set_enableShadows inShadow enableShadows negb map sumColors fold_right].
  cbn [clampColor cadd r] in *.
  rewrite Cg, Co. cbn [ambientColor occluded_hit isect_material mat_color
                        mat_ambient r black].
  split; f_equal; lra.
Qed.

(** C9, as stated, fails: with a material colour of (-1, 0, 0), every
    coefficient and every light value being non-negative, the red channel
    at the occluded point is 0.12 with shadows and 0 without. *)
Lemma shadows_negative_color_counterexample :
  material_coefficients_nonneg
    (isect_material (occluded_hit (mkColor (-1) 0 0))) /\
  Forall light_nonneg (scene_lights occluded_scene) /\
  ~ color_le
      (calculateLighting (set_enableShadows true raytracingSettings)
         (occluded_hit (mkColor (-1) 0 0)) occluded_ray occluded_scene)
      (calculateLighting (set_enableShadows false raytracingSettings)
         (occluded_hit (mkColor (-1) 0 0)) occluded_ray occluded_scene).
Proof.
  split; [unfold material_coefficients_nonneg; simpl; lra |].
  split.
  { apply Forall_cons; [| apply Forall_cons; [| apply Forall_nil]];
      unfold light_nonneg; simpl; lra. }
  intros [H _].
  destruct (occluded_lighting_r raytracingSettings (mkColor (-1) 0 0))
    as [E1 E0].
  rewrite E1, E0 in H. cbn [r] in H.
  replace (-1 * 0.1 + (-1 * 0.28 + 0.5)) with 0.12 in H by lra.
  replace (0.12 + (-1 + 0.5)) with (-0.38) in H by lra.
  rewrite (clamp01_id 0.12) in H by lra.
  unfold clamp01 in H. rewrite (Rmax_left 0 (-0.38)) in H by lra.
  rewrite Rmin_right in H by lra. lra.
Qed.

(** C9, amended.  With non-negative material colour channels, material
    coefficients, light colours and light intensities, the colour
    [calculateLighting] computes with [enableShadows = false] is
    channel-wise at least the colour it computes for the same
    intersection, ray and scene with [enableShadows = true]. *)
Theorem shadows_off_not_darker (st : Settings) (isect : Intersection)
    (ray : Ray) (scene : Scene) :
  material_color_nonneg (isect_material isect) ->
  material_coefficients_nonneg (isect_material isect) ->
  Forall light_nonneg (scene_lights scene) ->
  color_le (calculateLighting (set_enableShadows true st) isect ray scene)
           (calculateLighting (set_enableShadows false st) isect ray scene).
Proof.
  intros [Cr [Cg Cb]] [Hd [Hs _]] Hl.
  assert (Hm : material_nonneg (isect_material isect))
    by (unfold material_nonneg; repeat split; assumption).
  unfold calculateLighting.
  apply clampColor_mono. rewrite !lighting_loop.
  apply cadd_le_compat; [apply color_le_refl |].
  replace (filter (fun light =>
                     negb (inShadow (set_enableShadows false st) light
                                    (isect_point isect) scene))
                  (scene_lights scene))
    with (scene_lights scene)
    by (symmetry; exact (filter_all (scene_lights scene))).
  apply sum_filter_le.
  apply Forall_forall. intros light Hin.
  apply contribution_nonneg; [exact Hm |].
  rewrite Forall_forall in Hl. apply Hl. exact Hin.
Qed.

(** The occluded point in orange: the overhead light is in shadow there
    when shadows are on, and the red channel goes from 0.88 to 1. *)
Lemma shadows_off_not_darker_witness :
  color_le
    (calculateLighting (set_enableShadows true raytracingSettings)
       (occluded_hit (mkColor 1 0.5 0.2)) occluded_ray occluded_scene)
    (calculateLighting (set_enableShadows false raytracingSettings)
       (occluded_hit (mkColor 1 0.5 0.2)) occluded_ray occluded_scene)
  /\
  r (calculateLighting (set_enableShadows true raytracingSettings)
       (occluded_hit (mkColor 1 0.5 0.2)) occluded_ray occluded_scene)
  < r (calculateLighting (set_enableShadows false raytracingSettings)
         (occluded_hit (mkColor 1 0.5 0.2)) occluded_ray occluded_scene).
Proof.
  split.
  - apply shadows_off_not_darker.
    + unfold material_color_nonneg; simpl. lra.
    + unfold material_coefficients_nonneg; simpl. lra.
    + apply Forall_cons; [| apply Forall_cons; [| apply Forall_nil]];
        unfold light_nonneg; simpl; lra.
  - destruct (occluded_lighting_r raytracingSettings (mkColor 1 0.5 0.2))
      as [E1 E0].
    rewrite E1, E0. cbn [r].
    replace (1 * 0.1 + (1 * 0.28 + 0.5)) with 0.88 by lra.
    replace (0.88 + (1 + 0.5)) with 2.38 by lra.
    rewrite (clamp01_id 0.88) by lra.
    unfold clamp01. rewrite (Rmax_right 0 2.38) by lra.
    rewrite Rmin_left by lra. lra.
Defined.

(** ** The nearest of several objects *)

Lemma axis_sphere_discriminant (z : R) (m : Material) :
  SphereOps.discriminant (axis_sphere z m) scenario_ray = 4.
Proof.
  unfold SphereOps.discriminant, SphereOps.qb, SphereOps.qa, SphereOps.qc,
    SphereOps.oc, dot. simpl. nra.
Qed.

Lemma axis_sphere_root1 (z : R) (m : Material) :
  SphereOps.root1 (axis_sphere z m) scenario_ray = z - 1.
Proof.
  unfold SphereOps.root1. rewrite axis_sphere_discriminant, sqrt_4.
  unfold SphereOps.qb, SphereOps.qa, SphereOps.oc, dot. simpl. lra.
Qed.

(** A unit sphere centred at (0,0,z) is entered by the ray along +z at
    distance z - 1. *)
Lemma axis_sphere_hit (z : R) (m : Material) :
  0.001 <= z - 1 ->
  SphereOps.intersect (axis_sphere z m) scenario_ray
  = Some (SphereOps.hit (axis_sphere z m) scenario_ray (z - 1)).
Proof.
  intros Hz.
  destruct (intersect_cases (axis_sphere z m) scenario_ray)
    as [[D _] | [[_ [_ E]] | [[_ [H1 _]] | [_ [H1 _]]]]].
  - rewrite axis_sphere_discriminant in D. lra.
  - rewrite E, axis_sphere_root1. reflexivity.
  - rewrite axis_sphere_root1 in H1. lra.
  - rewrite axis_sphere_root1 in H1. lra.
Qed.

Lemma row_scene_nearest (m : Material) :
  computeRayIntersection scenario_ray (row_scene m)
  = Some (SphereOps.hit (axis_sphere 5 m) scenario_ray (5 - 1)).
Proof.
  unfold computeRayIntersection, row_scene; cbn [scene_objects fold_left].
  unfold nearer, intersect.
  rewrite !axis_sphere_hit by lra.
  cbn [SphereOps.hit isect_distance].
  destruct (Rlt_dec (5 - 1) (9 - 1)) as [_ | N]; [| exfalso; lra].
  cbn [SphereOps.hit isect_distance].
  destruct (Rlt_dec (13 - 1) (5 - 1)) as [N | _]; [exfalso; lra |].
  reflexivity.
Qed.

(** Appending a list to the objects already scanned. *)
Lemma nearest_app (ray : Ray) (before after : list Geometry)
    (acc : option Intersection) :
  fold_left (nearer ray) (before ++ after) acc
  = fold_left (nearer ray) after (fold_left (nearer ray) before acc).
Proof. apply fold_left_app. Qed.

(** Objects whose hits are all strictly farther than [i] leave [i] in
    place, when met before or after it. *)
Lemma nearest_keeps (ray : Ray) (i : Intersection) (objects : list Geometry) :
  (forall o j, In o objects -> intersect o ray = Some j ->
               isect_distance i <= isect_distance j) ->
  fold_left (nearer ray) objects (Some i) = Some i.
Proof.
  induction objects as [| object rest IH]; intros H; [reflexivity |].
  cbn [fold_left]. unfold nearer at 2.
  destruct (intersect object ray) as [k |] eqn:Ek.
  - destruct (Rlt_dec (isect_distance k) (isect_distance i)) as [L | _].
    + pose proof (H object k (or_introl eq_refl) Ek). lra.
    + apply IH. intros o j Ho. apply H. right. exact Ho.
  - apply IH. intros o j Ho. apply H. right. exact Ho.
Qed.

Lemma nearest_replaces (ray : Ray) (object : Geometry) (i : Intersection)
    (acc : option Intersection) :
  intersect object ray = Some i ->
  (forall j, acc = Some j -> isect_distance i < isect_distance j) ->
  nearer ray acc object = Some i.
Proof.
  intros Hi Hacc. unfold nearer. rewrite Hi.
  destruct acc as [a' |]; [| reflexivity].
  destruct (Rlt_dec (isect_distance i) (isect_distance a')) as [_ | N];
    [reflexivity |].
  exfalso. apply N. apply Hacc. reflexivity.
Qed.

(** X8.  For a ray whose direction is not the zero vector,
    [computeRayIntersection] returns [null] exactly when every object of
    the scene misses the ray, and it returns the hit [i] exactly when [i]
    is the hit of an object that is strictly nearer than every hit of the
    objects before it in [scene.objects] and at least as near as every hit
    of the objects after it: the first of the nearest wins. *)
Theorem computeRayIntersection_nearest (ray : Ray) (scene : Scene) :
  ray_direction ray <> mkVector3 0 0 0 ->
  (computeRayIntersection ray scene = None <->
   forall object, In object (scene_objects scene) ->
                  intersect object ray = None) /\
  (forall i,
     computeRayIntersection ray scene = Some i <->
     exists before object after,
       scene_objects scene = before ++ object :: after /\
       intersect object ray = Some i /\
       (forall o j, In o before -> intersect o ray = Some j ->
                    isect_distance i < isect_distance j) /\
       (forall o j, In o after -> intersect o ray = Some j ->
                    isect_distance i <= isect_distance j)).
Proof.
  intros _. unfold computeRayIntersection.
  assert (Back : forall i,
    (exists before object after,
       scene_objects scene = before ++ object :: after /\
       intersect object ray = Some i /\
       (forall o j, In o before -> intersect o ray = Some j ->
                    isect_distance i < isect_distance j) /\
       (forall o j, In o after -> intersect o ray = Some j ->
                    isect_distance i <= isect_distance j)) ->
    fold_left (nearer ray) (scene_objects scene) None = Some i).
  { intros i [before [object [after [E [Hi [Hb Ha]]]]]].
    rewrite E, nearest_app. cbn [fold_left].
    rewrite (nearest_replaces ray object i _ Hi).
    - apply nearest_keeps. exact Ha.
    - intros j Hj.
      destruct (nearest_minimal ray before j Hj) as [[o [Ho Ej]] _].
      apply (Hb o j Ho Ej). }
  pose proof (nearest_split ray (scene_objects scene)) as H.
  destruct (fold_left (nearer ray) (scene_objects scene) None) as [i |].
  - split.
    + split; [discriminate |].
      intros Hall. destruct H as [before [o [after [E [Hi _]]]]].
      rewrite Hall in Hi; [discriminate |].
      rewrite E. apply in_or_app. right. left. reflexivity.
    + intros k. split.
      * intros Hk. injection Hk as <-. exact H.
      * intros Hk. symmetry. apply Back in Hk. symmetry. exact Hk.
  - split.
    + split; [intros _; exact H | reflexivity].
    + intros k. split; [discriminate |].
      intros Hk. apply Back in Hk. discriminate.
Qed.

(** Three unit spheres on the axis of the ray, listed as z = 9, 5, 13:
    they are hit at distances 8, 4 and 12, and the second one, with an
    object before it and one after it, is the one returned. *)
Lemma computeRayIntersection_nearest_witness :
  (scene_objects (row_scene (Material_default (mkColor 1 0 0)))
   = [GSphere (axis_sphere 9 (Material_default (mkColor 1 0 0)))]
     ++ GSphere (axis_sphere 5 (Material_default (mkColor 1 0 0)))
     :: [GSphere (axis_sphere 13 (Material_default (mkColor 1 0 0)))] /\
   option_map isect_distance
     (intersect (GSphere (axis_sphere 9 (Material_default (mkColor 1 0 0))))
                scenario_ray) = Some (9 - 1) /\
   option_map isect_distance
     (intersect (GSphere (axis_sphere 13 (Material_default (mkColor 1 0 0))))
                scenario_ray) = Some (13 - 1)) /\
  computeRayIntersection scenario_ray
    (row_scene (Material_default (mkColor 1 0 0)))
  = Some (SphereOps.hit (axis_sphere 5 (Material_default (mkColor 1 0 0)))
                        scenario_ray (5 - 1)).
Proof.
  split.
  - split; [reflexivity |].
    unfold intersect. rewrite !axis_sphere_hit by lra. split; reflexivity.
  - apply (proj2 (computeRayIntersection_nearest scenario_ray
                    (row_scene (Material_default (mkColor 1 0 0)))
                    ltac:(unfold scenario_ray; cbn [ray_direction];
                          intros E; injection E as E; lra))).
    exists [GSphere (axis_sphere 9 (Material_default (mkColor 1 0 0)))],
      (GSphere (axis_sphere 5 (Material_default (mkColor 1 0 0)))),
      [GSphere (axis_sphere 13 (Material_default (mkColor 1 0 0)))].
    split; [reflexivity |].
    split; [unfold intersect; apply axis_sphere_hit; lra |].
    split.
    + intros o j [<- | []] Hj. unfold intersect in Hj.
      rewrite axis_sphere_hit in Hj by lra. injection Hj as <-.
      cbn [SphereOps.hit isect_distance]. lra.
    + intros o j [<- | []] Hj. unfold intersect in Hj.
      rewrite axis_sphere_hit in Hj by lra. injection Hj as <-.
      cbn [SphereOps.hit isect_distance]. lra.
Defined.

(** ** Camera moves *)

(** X25.  The three moves translate the position only; moving by [a] and then
    by [e] along the same axis is moving by [a + e], for each of the three
    moves; moving back by the same distance restores the camera, and moves
    along different axes commute. *)
Theorem camera_moves (c : Camera) (a e : R) :
  moveForward e (moveForward a c) = moveForward (a + e) c /\
  moveRight e (moveRight a c) = moveRight (a + e) c /\
  moveUp e (moveUp a c) = moveUp (a + e) c /\
  moveForward (- a) (moveForward a c) = c /\
  moveRight (- a) (moveRight a c) = c /\
  moveUp (- a) (moveUp a c) = c /\
  moveRight e (moveForward a c) = moveForward a (moveRight e c) /\
  moveUp e (moveForward a c) = moveForward a (moveUp e c) /\
  moveUp e (moveRight a c) = moveRight a (moveUp e c) /\
  cam_position (moveForward a c)
  = add (cam_position c) (scale (cam_direction c) a) /\
  cam_position (moveRight a c)
  = add (cam_position c) (scale (cam_right c) a) /\
  cam_position (moveUp a c)
  = add (cam_position c) (scale (cam_up c) a) /\
  (cam_direction (moveForward a c), cam_right (moveForward a c), cam_up (moveForward a c),
   cam_fov (moveForward a c), cam_aspectRatio (moveForward a c), cam_fovRadians (moveForward a c))
  = (cam_direction c, cam_right c, cam_up c,
     cam_fov c, cam_aspectRatio c, cam_fovRadians c) /\
  (cam_direction (moveRight a c), cam_right (moveRight a c), cam_up (moveRight a c),
   cam_fov (moveRight a c), cam_aspectRatio (moveRight a c), cam_fovRadians (moveRight a c))
  = (cam_direction c, cam_right c, cam_up c,
     cam_fov c, cam_aspectRatio c, cam_fovRadians c) /\
  (cam_direction (moveUp a c), cam_right (moveUp a c), cam_up (moveUp a c),
   cam_fov (moveUp a c), cam_aspectRatio (moveUp a c), cam_fovRadians (moveUp a c))
  = (cam_direction c, cam_right c, cam_up c,
     cam_fov c, cam_aspectRatio c, cam_fovRadians c).
Proof.
  repeat split;
    try (apply camera_eq; try reflexivity; apply vector_eq; simpl; ring).
Qed.

(** ** A rendered image *)

(** A 4 x 3 image of the sphere lit by two lights: the buffer has 48
    entries, all between 0 and 255, and those of pixel (2, 1) start at
    offset 24. *)
Lemma renderRaytrace_framebuffer_witness :
  exists imageData,
    renderRaytrace_image raytracingSettings renderer_camera occluded_scene 4 3
    = Some imageData /\
    List.length imageData = 48%nat /\
    Forall (fun v => (0 <= v <= 255)%Z) imageData /\
    firstn 4 (skipn 24 imageData)
    = pixelBytes
        (pixelColor raytracingSettings renderer_camera occluded_scene 4 3 2 1).
Proof.
  destruct (proj2 (renderRaytrace_framebuffer raytracingSettings
                     renderer_camera occluded_scene 4 3))
    as [imageData [E [L [F P]]]].
  - unfold occluded_scene; cbn [scene_objects]. discriminate.
  - exists imageData.
    split; [exact E |]. split; [exact L |]. split; [exact F |].
    apply (P 2%nat 1%nat); lia.
Defined.
